(** * Yebelo trading analytics: the streaming RSI engine and the dashboard relay

    The development has three parts.

    - [Engine]: the per-instrument rolling window, the Wilder RSI estimator and
      the ingestion step (the Rust service [rsi-calculator/src/main.rs]).
    - [Relay]: the two Next.js API routes of the dashboard, [GET /api/stream]
      (server-sent events relay) and [GET /api/tokens] (instrument discovery).
    - [Dashboard]: the [onmessage] handler of [app/page.tsx] that maintains the
      chart buffer.

    The engine is given twice: [Engine] computes in exact rationals ([Q]),
    [EngineF] in binary64 floating point.  Strings are byte strings. *)

From Stdlib Require Import String Ascii List Bool Arith PeanoNat ZArith Lia.
From Stdlib Require Import QArith Qminmax Lqa.
From Corelib Require PrimFloat.
Import ListNotations.

Set Warnings "-register-all".
Close Scope Q_scope.

(* ===================================================================== *)
(** * Part I: the indicator engine *)
(* ===================================================================== *)

Module Engine.

Local Open Scope Q_scope.

(** Configuration surface: RSI period and the two signal thresholds. *)
Record Config := mkConfig {
  period : positive;
  oversold_threshold : Q;
  overbought_threshold : Q
}.

Definition default_config : Config :=
  {| period := 14; oversold_threshold := 30; overbought_threshold := 70 |}.

Definition Wq (cfg : Config) : Q := inject_Z (Zpos (period cfg)).
Definition Wn (cfg : Config) : nat := Pos.to_nat (period cfg).

Inductive Signal := Oversold | Neutral | Overbought.

Record TradeEvent := mkTrade {
  trade_instrument : string;
  trade_price : Q;
  trade_timestamp : string;
  trade_sequence : Z
}.

Record SmoothedState := mkSmoothed {
  avg_gain : Q;
  avg_loss : Q;
  warm : bool;
  seen_count : nat
}.

Record ResultEvent := mkResult {
  instrument_id : string;
  rsi_value : Q;
  current_price : Q;
  timestamp : string;
  result_period : positive;
  signal : Signal
}.

(** Modelled from the spec: the gain/loss classification of a price delta
    ([rsi-calculator/src/main.rs] is missing): gain is [max(delta,0)], loss is
    [max(-delta,0)]. *)
Definition gain_of (delta : Q) : Q := Qmax delta 0.
Definition loss_of (delta : Q) : Q := Qmax (- delta) 0.

(** Modelled from the spec: the Rolling Window ([rsi-calculator/src/main.rs]
    is missing): an ordered buffer of the last [W+1] prices, oldest first;
    [push] returns the gain/loss pair of the new delta when a previous price
    exists, and evicts the oldest entry when the buffer overflows. *)
Definition RollingWindow := list Q.

Definition previous_price (w : RollingWindow) : option Q :=
  match rev w with
  | [] => None
  | p :: _ => Some p
  end.

Definition push (cfg : Config) (w : RollingWindow) (price : Q)
  : RollingWindow * option (Q * Q) :=
  let gl :=
    match previous_price w with
    | Some prev => let delta := price - prev in
                   Some (gain_of delta, loss_of delta)
    | None => None
    end in
  let w1 := w ++ [price] in
  ((if (S (Wn cfg) <? length w1)%nat then tl w1 else w1), gl).

Fixpoint deltas (w : RollingWindow) : list Q :=
  match w with
  | a :: (b :: _) as t => (b - a) :: deltas t
  | _ => []
  end.

Definition Qsum (l : list Q) : Q := fold_right Qplus 0 l.

Definition simple_avg_gain (cfg : Config) (w : RollingWindow) : Q :=
  Qsum (map gain_of (deltas w)) / Wq cfg.
Definition simple_avg_loss (cfg : Config) (w : RollingWindow) : Q :=
  Qsum (map loss_of (deltas w)) / Wq cfg.

(** Modelled from the spec: the Wilder RSI Estimator update
    ([rsi-calculator/src/main.rs] is missing).  In the steady phase
    ([seen_count >= W]) both averages follow Wilder's recurrence; in the
    warm-up phase the delta is only counted, and when the count reaches [W]
    the averages are initialised to the simple averages over the [W] deltas
    held by the window and [warm] becomes true. *)
Definition update (cfg : Config) (w : RollingWindow) (s : SmoothedState)
  (gain loss : Q) : SmoothedState :=
  if (Wn cfg <=? seen_count s)%nat then
    {| avg_gain := (avg_gain s * (Wq cfg - 1) + gain) / Wq cfg;
       avg_loss := (avg_loss s * (Wq cfg - 1) + loss) / Wq cfg;
       warm := true;
       seen_count := S (seen_count s) |}
  else if (S (seen_count s) =? Wn cfg)%nat then
    {| avg_gain := simple_avg_gain cfg w;
       avg_loss := simple_avg_loss cfg w;
       warm := true;
       seen_count := S (seen_count s) |}
  else
    {| avg_gain := avg_gain s;
       avg_loss := avg_loss s;
       warm := false;
       seen_count := S (seen_count s) |}.

(** Modelled from the spec: the RSI derivation ([rsi-calculator/src/main.rs]
    is missing): 50 on a flat market, 100 when only gains were seen, and
    [100 - 100/(1+RS)] with [RS = avg_gain/avg_loss] otherwise. *)
Definition rsi_of (g l : Q) : Q :=
  if Qeq_bool l 0 && Qeq_bool g 0 then 50
  else if Qeq_bool l 0 && negb (Qle_bool g 0) then 100
  else 100 - 100 / (1 + g / l).

Definition rsi (s : SmoothedState) : Q := rsi_of (avg_gain s) (avg_loss s).

(** Modelled from the spec: the signal classification
    ([rsi-calculator/src/main.rs] is missing): below the oversold threshold,
    above the overbought threshold, neutral otherwise. *)
Definition classify (cfg : Config) (r : Q) : Signal :=
  if negb (Qle_bool (oversold_threshold cfg) r) then Oversold
  else if negb (Qle_bool r (overbought_threshold cfg)) then Overbought
  else Neutral.

(** The per-instrument entry of the Instrument State Table. *)
Record InstrumentState := mkInstrument {
  window : RollingWindow;
  smoothed : SmoothedState
}.

Definition fresh : InstrumentState :=
  {| window := [];
     smoothed := {| avg_gain := 0; avg_loss := 0; warm := false;
                    seen_count := 0 |} |}.

(** Modelled from the spec: the [Consuming] step of the Ingestion Loop for a
    valid trade ([rsi-calculator/src/main.rs] is missing): push the price,
    update the estimator when a delta exists, and hand a Result Event to the
    publisher only if the instrument is warm. *)
Definition process (cfg : Config) (st : InstrumentState) (t : TradeEvent)
  : InstrumentState * option ResultEvent :=
  let w := fst (push cfg (window st) (trade_price t)) in
  let gl := snd (push cfg (window st) (trade_price t)) in
  let s := match gl with
           | Some (g, l) => update cfg w (smoothed st) g l
           | None => smoothed st
           end in
  ({| window := w; smoothed := s |},
   if warm s then
     Some {| instrument_id := trade_instrument t;
             rsi_value := rsi s;
             current_price := trade_price t;
             timestamp := trade_timestamp t;
             result_period := period cfg;
             signal := classify cfg (rsi s) |}
   else None).

(** Feeding a sequence of trades to one instrument: the final state and the
    Result Events handed to the publisher, in order. *)
Fixpoint ingest (cfg : Config) (st : InstrumentState) (ts : list TradeEvent)
  : InstrumentState * list ResultEvent :=
  match ts with
  | [] => (st, [])
  | t :: rest =>
      let r := ingest cfg (fst (process cfg st t)) rest in
      (fst r,
       match snd (process cfg st t) with
       | Some ev => ev :: snd r
       | None => snd r
       end)
  end.

Definition final_state cfg ts := fst (ingest cfg fresh ts).
Definition published cfg ts := snd (ingest cfg fresh ts).

Definition trade_at (id : string) (p : Q) : TradeEvent :=
  {| trade_instrument := id; trade_price := p;
     trade_timestamp := EmptyString; trade_sequence := 0%Z |}.

(** ** Invariants of a run, used by the proofs *)


(** [warm] is exactly the test [W <= seen_count]. *)
Definition phase_ok (cfg : Config) (s : SmoothedState) : Prop :=
  warm s = (Wn cfg <=? seen_count s)%nat.

(** Every published event was derived from a warm state satisfying the
    invariant under which the run started. *)
Definition derived_from (cfg : Config) (I : InstrumentState -> list TradeEvent -> Prop)
  (ev : ResultEvent) : Prop :=
  exists st ts, I st ts /\ warm (smoothed st) = true /\
    rsi_value ev = rsi (smoothed st) /\
    signal ev = classify cfg (rsi (smoothed st)).

(** The invariant of a run over a flat sequence at price [p]. *)
Definition flat_inv (p : Q) (st : InstrumentState) (ts : list TradeEvent) : Prop :=
  (forall x, In x (window st) -> x == p) /\
  Forall (fun t => trade_price t == p) ts /\
  avg_gain (smoothed st) == 0 /\ avg_loss (smoothed st) == 0.

(** Each price is strictly below the one before it. *)
Fixpoint descending (l : list Q) : Prop :=
  match l with
  | a :: (b :: _) as t => b < a /\ descending t
  | _ => True
  end.

(** The invariant of a run over a strictly decreasing sequence. *)
Definition desc_inv (cfg : Config) (st : InstrumentState) (ts : list TradeEvent) : Prop :=
  descending (window st ++ map trade_price ts) /\
  phase_ok cfg (smoothed st) /\
  (warm (smoothed st) = true ->
   avg_gain (smoothed st) == 0 /\ 0 < avg_loss (smoothed st)).

(** Sample sequences. *)
Definition flat16 : list TradeEvent := repeat (trade_at "A" 7) 16.

Definition rising15 : list TradeEvent :=
  map (trade_at "A") [1; 2; 3; 4; 5; 6; 7; 8; 9; 10; 11; 12; 13; 14; 15].

Definition falling15 : list TradeEvent :=
  map (trade_at "A") [15; 14; 13; 12; 11; 10; 9; 8; 7; 6; 5; 4; 3; 2; 1].

End Engine.

(* ===================================================================== *)
(** * Part I, in binary64: the indicator engine on floating-point numbers *)
(* ===================================================================== *)

Module EngineF.
Import PrimFloat.
Local Open Scope float_scope.

Record Config := mkConfig {
  period : positive;
  oversold_threshold : float;
  overbought_threshold : float
}.

Definition default_config : Config :=
  {| period := 14; oversold_threshold := 30; overbought_threshold := 70 |}.

(** The period as a float (exact for every period below 2^53). *)
Fixpoint float_of_pos (p : positive) : float :=
  match p with
  | xH => 1
  | xO q => 2 * float_of_pos q
  | xI q => 2 * float_of_pos q + 1
  end.

Definition Wf (cfg : Config) : float := float_of_pos (period cfg).
Definition Wn (cfg : Config) : nat := Pos.to_nat (period cfg).

Record TradeEvent := mkTrade {
  trade_instrument : string;
  trade_price : float;
  trade_timestamp : string;
  trade_sequence : Z
}.

Record SmoothedState := mkSmoothed {
  avg_gain : float;
  avg_loss : float;
  warm : bool;
  seen_count : nat
}.

Record ResultEvent := mkResult {
  instrument_id : string;
  rsi_value : float;
  current_price : float;
  timestamp : string;
  result_period : positive;
  signal : Engine.Signal
}.

Definition fmax (a b : float) : float := if a <? b then b else a.

(** Modelled from the spec: the gain/loss classification of a price delta
    ([rsi-calculator/src/main.rs] is missing), in binary64. *)
Definition gain_of (delta : float) : float := fmax delta 0.
Definition loss_of (delta : float) : float := fmax (- delta) 0.

(** Modelled from the spec: the Rolling Window ([rsi-calculator/src/main.rs]
    is missing), as in [Engine] with float prices. *)
Definition RollingWindow := list float.

Definition previous_price (w : RollingWindow) : option float :=
  match rev w with
  | [] => None
  | p :: _ => Some p
  end.

Definition push (cfg : Config) (w : RollingWindow) (price : float)
  : RollingWindow * option (float * float) :=
  let gl :=
    match previous_price w with
    | Some prev => let delta := price - prev in
                   Some (gain_of delta, loss_of delta)
    | None => None
    end in
  let w1 := (w ++ [price])%list in
  ((if (S (Wn cfg) <? length w1)%nat then tl w1 else w1), gl).

Fixpoint deltas (w : RollingWindow) : list float :=
  match w with
  | a :: (b :: _) as t => (b - a) :: deltas t
  | _ => []
  end.

Definition fsum (l : list float) : float := fold_right add 0 l.

Definition simple_avg_gain (cfg : Config) (w : RollingWindow) : float :=
  fsum (map gain_of (deltas w)) / Wf cfg.
Definition simple_avg_loss (cfg : Config) (w : RollingWindow) : float :=
  fsum (map loss_of (deltas w)) / Wf cfg.

(** Modelled from the spec: the Wilder RSI Estimator update
    ([rsi-calculator/src/main.rs] is missing), in binary64: the same phases
    and formulas as [Engine.update], every operation rounded. *)
Definition update (cfg : Config) (w : RollingWindow) (s : SmoothedState)
  (gain loss : float) : SmoothedState :=
  if (Wn cfg <=? seen_count s)%nat then
    {| avg_gain := (avg_gain s * (Wf cfg - 1) + gain) / Wf cfg;
       avg_loss := (avg_loss s * (Wf cfg - 1) + loss) / Wf cfg;
       warm := true;
       seen_count := S (seen_count s) |}
  else if (S (seen_count s) =? Wn cfg)%nat then
    {| avg_gain := simple_avg_gain cfg w;
       avg_loss := simple_avg_loss cfg w;
       warm := true;
       seen_count := S (seen_count s) |}
  else
    {| avg_gain := avg_gain s;
       avg_loss := avg_loss s;
       warm := false;
       seen_count := S (seen_count s) |}.

(** Modelled from the spec: the RSI derivation ([rsi-calculator/src/main.rs]
    is missing), in binary64. *)
Definition rsi_of (g l : float) : float :=
  if (l =? 0) && (g =? 0) then 50
  else if (l =? 0) && (0 <? g) then 100
  else 100 - 100 / (1 + g / l).

Definition rsi (s : SmoothedState) : float := rsi_of (avg_gain s) (avg_loss s).


(** Modelled from the spec: the signal classification
    ([rsi-calculator/src/main.rs] is missing), in binary64. *)
Definition classify (cfg : Config) (r : float) : Engine.Signal :=
  if r <? oversold_threshold cfg then Engine.Oversold
  else if overbought_threshold cfg <? r then Engine.Overbought
  else Engine.Neutral.

Record InstrumentState := mkInstrument {
  window : RollingWindow;
  smoothed : SmoothedState
}.

Definition fresh : InstrumentState :=
  {| window := [];
     smoothed := {| avg_gain := 0; avg_loss := 0; warm := false;
                    seen_count := 0 |} |}.

(** Modelled from the spec: the [Consuming] step of the Ingestion Loop for a
    valid trade ([rsi-calculator/src/main.rs] is missing), in binary64. *)
Definition process (cfg : Config) (st : InstrumentState) (t : TradeEvent)
  : InstrumentState * option ResultEvent :=
  let w := fst (push cfg (window st) (trade_price t)) in
  let gl := snd (push cfg (window st) (trade_price t)) in
  let s := match gl with
           | Some (g, l) => update cfg w (smoothed st) g l
           | None => smoothed st
           end in
  ({| window := w; smoothed := s |},
   if warm s then
     Some {| instrument_id := trade_instrument t;
             rsi_value := rsi s;
             current_price := trade_price t;
             timestamp := trade_timestamp t;
             result_period := period cfg;
             signal := classify cfg (rsi s) |}
   else None).

Fixpoint ingest (cfg : Config) (st : InstrumentState) (ts : list TradeEvent)
  : InstrumentState * list ResultEvent :=
  match ts with
  | [] => (st, [])
  | t :: rest =>
      let r := ingest cfg (fst (process cfg st t)) rest in
      (fst r,
       match snd (process cfg st t) with
       | Some ev => ev :: snd r
       | None => snd r
       end)
  end.

Definition final_state cfg ts := fst (ingest cfg fresh ts).
Definition published cfg ts := snd (ingest cfg fresh ts).

Definition trade_at (id : string) (p : float) : TradeEvent :=
  {| trade_instrument := id; trade_price := p;
     trade_timestamp := EmptyString; trade_sequence := 0%Z |}.

(** [warm] is exactly the test [W <= seen_count]. *)
Definition phase_ok (cfg : Config) (s : SmoothedState) : Prop :=
  warm s = (Wn cfg <=? seen_count s)%nat.


End EngineF.

(* ===================================================================== *)
(** * Part II: JavaScript values shared by the routes and the dashboard *)
(* ===================================================================== *)

Module Js.

Local Open Scope string_scope.

(** The values [JSON.parse] can return.  A number is kept as its canonical
    decimal text (what [Number.prototype.toString] prints), so two [JNum] are
    equal exactly when the numbers are. *)
Inductive json :=
| JNull
| JBool (b : bool)
| JNum (repr : string)
| JStr (s : string)
| JArr (items : list json)
| JObj (fields : list (string * json)).

(** A JavaScript value read from a parsed document: [None] is [undefined]. *)
Definition value := option json.

Inductive error :=
| SyntaxError (input : string)
| TypeError (property : string).

(** The outcome of evaluating an expression inside a [try] block. *)
Inductive completion (A : Type) :=
| Normal (a : A)
| Throw (e : error).
Arguments Normal {A} a.
Arguments Throw {A} e.

Definition bind {A B : Type} (c : completion A) (k : A -> completion B)
  : completion B :=
  match c with
  | Normal a => k a
  | Throw e => Throw e
  end.

Notation "x <- c ;; k" := (bind c (fun x => k))
  (at level 61, c at next level, right associativity).

(** [JSON.parse] and [JSON.stringify] belong to the JavaScript runtime. *)
Class JsonCodec := {
  JSON_parse : string -> completion json;
  JSON_stringify : json -> string
}.

(** [new Date(v).toLocaleTimeString()]: the text is locale dependent, and
    constructing the date throws a TypeError when [v] is an object that
    cannot be converted to a primitive value. *)
Class Clock := {
  toLocaleTimeString : value -> completion string
}.

Fixpoint lookup (key : string) (fields : list (string * json)) : value :=
  match fields with
  | [] => None
  | (k, v) :: rest => if String.eqb k key then Some v else lookup key rest
  end.

(** [x.key] for a key that no built-in prototype defines: reading it from
    [null] throws, from an object it gives the field or [undefined], from any
    other value it gives [undefined]. *)
Definition get_property (x : json) (key : string) : completion value :=
  match x with
  | JNull => Throw (TypeError key)
  | JObj fields => Normal (lookup key fields)
  | _ => Normal None
  end.

(** [v === s] for a string [s]. *)
Definition strict_equal_string (v : value) (s : string) : bool :=
  match v with
  | Some (JStr t) => String.eqb t s
  | _ => false
  end.

(** JavaScript truthiness. *)
Definition truthy (v : value) : bool :=
  match v with
  | None => false
  | Some JNull => false
  | Some (JBool b) => b
  | Some (JNum repr) => negb (String.eqb repr "0")
  | Some (JStr s) => negb (String.eqb s "")
  | Some (JArr _) => true
  | Some (JObj _) => true
  end.

(** [a || b] on an optional string ([null] and the empty string are falsy). *)
Definition or_else (a : option string) (b : string) : string :=
  match a with
  | Some s => if String.eqb s "" then b else s
  | None => b
  end.

(** One [console.error(label, err)] call. *)
Record LogEntry := mkLog {
  log_label : string;
  log_error : error
}.

(** A message delivered by the consumer: [message.value] is a buffer or null. *)
Record KafkaMessage := mkMessage {
  value_of : option string
}.

Definition LF : string := String (ascii_of_nat 10) EmptyString.

(** [new TextEncoder().encode(s)]: the bytes of the string. *)
Definition TextEncoder_encode (s : string) : list Byte.byte :=
  list_byte_of_string s.

(** [array.slice(start)]: a negative [start] counts from the end. *)
Definition slice {A : Type} (start : Z) (l : list A) : list A :=
  let len := Z.of_nat (length l) in
  let k := if (start <? 0)%Z then Z.max (len + start) 0 else Z.min start len in
  skipn (Z.to_nat k) l.

(** The last [n] elements of a list, in order. *)
Definition lastn {A : Type} (n : nat) (l : list A) : list A :=
  skipn (length l - n) l.

(** [s.substring(indexStart, indexEnd)]: both indices are clamped to
    [0, s.length], a missing end is the length, and the two are swapped when
    the start is past the end.  Strings are sequences of 8-bit characters,
    which for ASCII text are the code units JavaScript indexes. *)
Definition substring (s : string) (indexStart : Z) (indexEnd : option Z) : string :=
  let len := Z.of_nat (String.length s) in
  let clamp := fun i => Z.min (Z.max i 0) len in
  let a := clamp indexStart in
  let b := match indexEnd with Some e => clamp e | None => len end in
  let lo := Z.min a b in
  let hi := Z.max a b in
  String.substring (Z.to_nat lo) (Z.to_nat (hi - lo)) s.

End Js.

(* ===================================================================== *)
(** * Part III: the relay route [GET /api/stream] *)
(* ===================================================================== *)

Module Stream.
Import Js.
Local Open Scope string_scope.

Record Request := mkRequest {
  searchParams : list (string * string)
}.

(** [searchParams.get(name)]: the first value with that name, or null. *)
Fixpoint searchParams_get (name : string) (params : list (string * string))
  : option string :=
  match params with
  | [] => None
  | (k, v) :: rest => if String.eqb k name then Some v
                      else searchParams_get name rest
  end.

Definition selectedToken (request : Request) : string :=
  or_else (searchParams_get "token" (searchParams request)) "all".

Record SubscribeOptions := mkSubscribe {
  topic : string;
  fromBeginning : bool
}.

Definition subscription : SubscribeOptions :=
  {| topic := "rsi-data"; fromBeginning := false |}.

(** Every request creates its consumer in the same consumer group. *)
Definition groupId : string := "dashboard-consumer".

(** What the broker keeps for one consumer group on the topic.  The topic is
    a list of messages in publish order and has a single partition (it is
    created with [--partitions 1]), which the broker assigns to one member
    of the group; members are numbered.  [committed] is the offset the group
    has committed, if any. *)
Record Group := mkGroup {
  committed : option nat;
  owner : nat
}.

(** The broker's state for every group, by group identifier. *)
Definition Broker := string -> Group.

(** Where a consumer starts reading: at the offset its group has committed;
    only when there is none does [fromBeginning] decide, between the start
    of the log and its end. *)
Definition start_offset (opts : SubscribeOptions) (group : Group)
  (log : list KafkaMessage) : nat :=
  match committed group with
  | Some offset => offset
  | None => if fromBeginning opts then 0 else length log
  end.

(** What a member of the group is delivered: the log from its start offset
    on when the partition is assigned to it, nothing otherwise.  [before]
    is the log when it subscribes, [after] what is published while it is
    connected. *)
Definition delivered (opts : SubscribeOptions) (group : Group) (member : nat)
  (before after : list KafkaMessage) : list KafkaMessage :=
  if Nat.eqb member (owner group)
  then skipn (start_offset opts group before) (before ++ after)
  else [].

(** The consumer runs with automatic commits: the owner leaves the offset
    after the last message it handled committed for its group. *)
Definition commit_handled (group : Group) (member : nat)
  (before after : list KafkaMessage) : Group :=
  if Nat.eqb member (owner group)
  then {| committed := Some (length (before ++ after)); owner := owner group |}
  else group.

(** One subscriber session: the chunks enqueued on the stream controller
    (oldest first) and the errors written to the console. *)
Record Session := mkSession {
  queue : list (list Byte.byte);
  console : list LogEntry
}.

Definition open_session : Session := {| queue := []; console := [] |}.

(** [controller.enqueue(chunk)] appends to the controller's queue. *)
Definition enqueue (st : Session) (chunk : list Byte.byte) : Session :=
  {| queue := queue st ++ [chunk]; console := console st |}.

Definition console_error (st : Session) (label : string) (e : error) : Session :=
  {| queue := queue st; console := console st ++ [mkLog label e] |}.

(** The session with its console replaced. *)
Definition with_console (st : Session) (c : list LogEntry) : Session :=
  {| queue := queue st; console := c |}.

Section Handler.
Context {codec : JsonCodec}.

Definition sseData (rsiData : json) : string :=
  "data: " ++ JSON_stringify rsiData ++ LF ++ LF.

(** The body of the [try] block of [eachMessage]. *)
Definition try_block (selectedToken : string) (st : Session) (payload : string)
  : completion Session :=
  rsiData <- JSON_parse payload ;;
  skip <- (if negb (String.eqb selectedToken "all") then
             tok <- get_property rsiData "token_address" ;;
             Normal (negb (strict_equal_string tok selectedToken))
           else Normal false) ;;
  if (skip : bool) then Normal st
  else Normal (enqueue st (TextEncoder_encode (sseData rsiData))).

Definition eachMessage (selectedToken : string) (st : Session)
  (message : KafkaMessage) : Session :=
  match value_of message with
  | None => st
  | Some payload =>
      match try_block selectedToken st payload with
      | Normal st' => st'
      | Throw err => console_error st "Error processing message:" err
      end
  end.

(** [consumer.run]: the handler is called on the delivered messages in
    order. *)
Definition consumer_run (selectedToken : string) (st : Session)
  (messages : list KafkaMessage) : Session :=
  fold_left (eachMessage selectedToken) messages st.

(** The session created by one request, as member [member] of the group
    [groupId]: [before] is the topic when the session subscribes, [after]
    what is published while it is connected. *)
Definition GET (request : Request) (broker : Broker) (member : nat)
  (before after : list KafkaMessage) : Session :=
  consumer_run (selectedToken request) open_session
    (delivered subscription (broker groupId) member before after).

(** *** The relay contract, in the words of the specification *)

(** The Result Events among the delivered messages, in publish order. *)
Definition parsed (messages : list KafkaMessage) : list json :=
  flat_map (fun m =>
    match value_of m with
    | Some payload =>
        match JSON_parse payload with
        | Normal j => [j]
        | Throw _ => []
        end
    | None => []
    end) messages.

(** The instrument identifier carried by an event. *)
Definition instrument_of (j : json) : option string :=
  match j with
  | JObj fields =>
      match lookup "token_address" fields with
      | Some (JStr id) => Some id
      | _ => None
      end
  | _ => None
  end.

(** A session's filter matches an event when the filter is "all" or equals
    the event's instrument identifier. *)
Definition filter_matches (filter : string) (j : json) : bool :=
  String.eqb filter "all" ||
  match instrument_of j with
  | Some id => String.eqb filter id
  | None => false
  end.

(** The frame of an event: [data: <json>] followed by a blank line. *)
Definition frame (j : json) : list Byte.byte :=
  TextEncoder_encode ("data: " ++ JSON_stringify j ++ LF ++ LF).


(** A well-formed Result Event: an object with a string [token_address],
    numbers [rsi_value], [current_price] and [period], a string [timestamp]
    and a [signal] among oversold, neutral and overbought. *)
Definition well_formed_event (j : json) : bool :=
  match j with
  | JObj fields =>
      match lookup "token_address" fields, lookup "rsi_value" fields,
            lookup "current_price" fields, lookup "timestamp" fields,
            lookup "period" fields, lookup "signal" fields with
      | Some (JStr _), Some (JNum _), Some (JNum _), Some (JStr _),
        Some (JNum _), Some (JStr sig) =>
          String.eqb sig "oversold" || String.eqb sig "neutral"
          || String.eqb sig "overbought"
      | _, _, _, _, _, _ => false
      end
  | _ => false
  end.

(** Every message whose payload is not a well-formed event is logged and
    skipped. *)
Definition skips_every_ill_formed_event : Prop :=
  forall (filter : string) (st : Session) (m : KafkaMessage) (payload : string),
    value_of m = Some payload ->
    (forall j, JSON_parse payload = Normal j -> well_formed_event j = false) ->
    queue (eachMessage filter st m) = queue st /\
    length (console (eachMessage filter st m)) = S (length (console st)).

(** A bounded outbound buffer of capacity [N] with a drop-oldest policy: after
    any burst of more than [N] matching events pushed to a stalled consumer,
    the session holds exactly the frames of the [N] most recent ones. *)
Definition drops_oldest (N : nat) : Prop :=
  forall (filter : string) (messages : list KafkaMessage),
    Forall (fun j => filter_matches filter j = true) (parsed messages) ->
    N < length (parsed messages) ->
    queue (consumer_run filter open_session messages)
    = lastn N (map frame (parsed messages)).

End Handler.

(** The message carries a payload ([message.value] is not null). *)
Definition has_payload (m : KafkaMessage) : bool :=
  match value_of m with
  | Some _ => true
  | None => false
  end.

(** The headers of the response that carries the stream. *)
Definition response_headers : list (string * string) :=
  [("Content-Type", "text/event-stream");
   ("Cache-Control", "no-cache");
   ("Connection", "keep-alive")].

End Stream.

(* ===================================================================== *)
(** * Part IV: the discovery route [GET /api/tokens] *)
(* ===================================================================== *)

Module Tokens.
Import Js.
Local Open Scope string_scope.

Definition maxMessages : nat := 100.

(** [a] and [b] are the same key of a JavaScript [Set] (SameValueZero):
    primitives compare by value; every parsed object or array is a fresh
    reference, different from all the others. *)
Definition same_value_zero (a b : json) : bool :=
  match a, b with
  | JNull, JNull => true
  | JBool x, JBool y => Bool.eqb x y
  | JNum x, JNum y => String.eqb x y
  | JStr x, JStr y => String.eqb x y
  | _, _ => false
  end.

(** [set.add(x)]: insertion order is kept, a present key is not added again. *)
Definition Set_add (set : list json) (x : json) : list json :=
  if existsb (same_value_zero x) set then set else set ++ [x].

Record State := mkState {
  tokens : list json;
  messageCount : nat;
  connected : bool;
  console : list LogEntry
}.

Definition initial : State :=
  {| tokens := []; messageCount := 0; connected := true; console := [] |}.

Definition console_error (st : State) (label : string) (e : error) : State :=
  {| tokens := tokens st; messageCount := messageCount st;
     connected := connected st;
     console := console st ++ [mkLog label e] |}.

(** The state with its console replaced. *)
Definition with_console (st : State) (c : list LogEntry) : State :=
  {| tokens := tokens st; messageCount := messageCount st;
     connected := connected st; console := c |}.

Section Handler.
Context {codec : JsonCodec}.

(** The body of the [try] block of [eachMessage]. *)
Definition try_block (st : State) (payload : string) : completion State :=
  trade <- JSON_parse payload ;;
  tok <- get_property trade "token_address" ;;
  let tokens1 :=
    match tok with
    | Some x => if truthy tok then Set_add (tokens st) x else tokens st
    | None => tokens st
    end in
  let count1 := S (messageCount st) in
  Normal {| tokens := tokens1;
            messageCount := count1;
            connected := if (maxMessages <=? count1)%nat then false
                         else connected st;
            console := console st |}.

Definition eachMessage (st : State) (message : KafkaMessage) : State :=
  match value_of message with
  | None => st
  | Some payload =>
      match try_block st payload with
      | Normal st' => st'
      | Throw err => console_error st "Error parsing message:" err
      end
  end.

(** The handler calls the runner started by [consumer.run] makes on the
    fetched messages: in order, and no more once the handler has
    disconnected the consumer.  How many messages are fetched before the
    route reads the set is not fixed by the route. *)
Fixpoint consumer_run (st : State) (messages : list KafkaMessage) : State :=
  match messages with
  | [] => st
  | m :: rest =>
      if connected st then consumer_run (eachMessage st m) rest else st
  end.

(** The state after the handler has been called on the given messages, in
    order, whoever calls it and whenever. *)
Definition handler_calls (st : State) (messages : list KafkaMessage) : State :=
  fold_left eachMessage messages st.

End Handler.

(** What a run leaves apart from the console. *)
Definition outcome (st : State) : list json * nat * bool :=
  (tokens st, messageCount st, connected st).

(** No two keys of the set are the same value. *)
Definition distinct_keys (set : list json) : Prop :=
  ForallOrdPairs (fun a b => same_value_zero a b = false) set.

(** The strings among the keys, in insertion order. *)
Definition token_strings (set : list json) : list string :=
  flat_map (fun x => match x with JStr s => [s] | _ => [] end) set.

(** What holds of every state a run from [initial] reaches. *)
Definition reachable_inv (st : State) : Prop :=
  connected st = (messageCount st <? maxMessages)%nat /\
  (messageCount st <= maxMessages)%nat /\
  (length (tokens st) <= messageCount st)%nat /\
  distinct_keys (tokens st).

(** The message carries a payload ([message.value] is not null). *)
Definition has_payload (m : KafkaMessage) : bool :=
  match value_of m with
  | Some _ => true
  | None => false
  end.

(** What holds after any handler calls from [initial], [n] of them on
    messages with a payload. *)
Definition calls_inv (n : nat) (st : State) : Prop :=
  (length (tokens st) <= messageCount st)%nat /\
  (messageCount st <= n)%nat /\
  (maxMessages <= messageCount st -> connected st = false)%nat.

End Tokens.

(* ===================================================================== *)
(** * Part V: the dashboard page *)
(* ===================================================================== *)

Module Dashboard.
Import Js.
Local Open Scope string_scope.

Record ChartDataPoint := mkPoint {
  time : string;
  price : value;
  rsi : value
}.

Record State := mkState {
  currentData : json;
  chartData : list ChartDataPoint;
  console : list LogEntry
}.

(** [useState(null)] and [useState([])]. *)
Definition initial : State :=
  {| currentData := JNull; chartData := []; console := [] |}.

Definition setCurrentData (st : State) (d : json) : State :=
  {| currentData := d; chartData := chartData st; console := console st |}.

Definition setChartData (st : State)
  (f : list ChartDataPoint -> list ChartDataPoint) : State :=
  {| currentData := currentData st; chartData := f (chartData st);
     console := console st |}.

Definition console_error (st : State) (label : string) (e : error) : State :=
  {| currentData := currentData st; chartData := chartData st;
     console := console st ++ [mkLog label e] |}.

Section Handler.
Context {codec : JsonCodec} {clock : Clock}.

(** The data point built from a parsed event. *)
Definition newDataPoint (rsiData : json) : completion ChartDataPoint :=
  ts <- get_property rsiData "timestamp" ;;
  t <- toLocaleTimeString ts ;;
  p <- get_property rsiData "current_price" ;;
  r <- get_property rsiData "rsi_value" ;;
  Normal {| time := t; price := p; rsi := r |}.

(** The [try] block of [eventSource.onmessage]; the state update made by
    [setCurrentData] before a later statement throws is kept. *)
Definition onmessage (st : State) (data : string) : State :=
  match JSON_parse data with
  | Throw err => console_error st "Error parsing SSE data:" err
  | Normal rsiData =>
      let st1 := setCurrentData st rsiData in
      match newDataPoint rsiData with
      | Throw err => console_error st1 "Error parsing SSE data:" err
      | Normal point =>
          setChartData st1 (fun prev =>
            let updated := (prev ++ [point])%list in
            slice (-50) updated)
      end
  end.

Definition receive (st : State) (events : list string) : State :=
  fold_left onmessage events st.

(** The data points of the events that were charted, in arrival order. *)
Definition points (events : list string) : list ChartDataPoint :=
  flat_map (fun data =>
    match JSON_parse data with
    | Normal rsiData =>
        match newDataPoint rsiData with
        | Normal point => [point]
        | Throw _ => []
        end
    | Throw _ => []
    end) events.

(** The events whose data parsed, in arrival order. *)
Definition parsed_data (events : list string) : list json :=
  flat_map (fun data =>
    match JSON_parse data with
    | Normal rsiData => [rsiData]
    | Throw _ => []
    end) events.

End Handler.

(** The state with its console replaced. *)
Definition with_console (st : State) (c : list LogEntry) : State :=
  {| currentData := currentData st; chartData := chartData st; console := c |}.

(** The label of a token in the selector: its first 8 characters, an
    ellipsis, and what [substring(length - 6)] gives. *)
Definition option_label (token : string) : string :=
  substring token 0 (Some 8%Z) ++ "..." ++
  substring token (Z.of_nat (String.length token) - 6) None.

End Dashboard.

(* ===================================================================== *)
(** * Sample documents used by the examples *)
(* ===================================================================== *)

Module Samples.
Import Js.
Local Open Scope string_scope.

Definition quote : string := String (ascii_of_nat 34) EmptyString.
Definition backslash : string := String (ascii_of_nat 92) EmptyString.

Definition hex_digit (n : nat) : string :=
  match nth_error
          ["0"; "1"; "2"; "3"; "4"; "5"; "6"; "7"; "8"; "9";
           "a"; "b"; "c"; "d"; "e"; "f"] n with
  | Some d => d
  | None => "0"
  end.

Definition escape_char (c : ascii) : string :=
  let n := nat_of_ascii c in
  if (n =? 34)%nat then backslash ++ quote
  else if (n =? 92)%nat then backslash ++ backslash
  else if (n =? 8)%nat then backslash ++ "b"
  else if (n =? 9)%nat then backslash ++ "t"
  else if (n =? 10)%nat then backslash ++ "n"
  else if (n =? 12)%nat then backslash ++ "f"
  else if (n =? 13)%nat then backslash ++ "r"
  else if (n <? 32)%nat then
    backslash ++ "u00" ++ hex_digit (n / 16) ++ hex_digit (n mod 16)
  else String c EmptyString.

Fixpoint escape (s : string) : string :=
  match s with
  | EmptyString => EmptyString
  | String c rest => escape_char c ++ escape rest
  end.

Definition quoted (s : string) : string := quote ++ escape s ++ quote.

(** [JSON.stringify] on the values of [json]: no white space, fields in
    order. *)
Fixpoint stringify (j : json) : string :=
  match j with
  | JNull => "null"
  | JBool true => "true"
  | JBool false => "false"
  | JNum repr => repr
  | JStr s => quoted s
  | JArr items => "[" ++ String.concat "," (map stringify items) ++ "]"
  | JObj fields =>
      "{" ++ String.concat ","
               (map (fun kv => quoted (fst kv) ++ ":" ++ stringify (snd kv))
                    fields) ++ "}"
  end.

Definition result_event (token signal : string) (rsi price : string) : json :=
  JObj [("token_address", JStr token);
        ("rsi_value", JNum rsi);
        ("current_price", JNum price);
        ("timestamp", JStr "2025-01-01T00:00:00Z");
        ("period", JNum "14");
        ("signal", JStr signal)].

Definition eventA : json := result_event "TokenA" "overbought" "100" "15".
Definition eventB : json := result_event "TokenB" "neutral" "50" "7".
Definition eventA2 : json := result_event "TokenA" "oversold" "0" "1".

Definition documents : list json := [eventA; eventB; eventA2; JNull].

(** [JSON.parse] on the texts of the sample documents; the only other text
    the examples use is [malformed], which is not JSON. *)
Definition parse (text : string) : completion json :=
  match find (fun j => String.eqb (stringify j) text) documents with
  | Some j => Normal j
  | None => Throw (SyntaxError text)
  end.

Definition codec : JsonCodec :=
  {| JSON_parse := parse; JSON_stringify := stringify |}.

Definition message (j : json) : KafkaMessage :=
  {| value_of := Some (stringify j) |}.

(** Three events of TokenA published in a row. *)
Definition burst : list KafkaMessage :=
  [message eventA; message eventA2; message eventA].

Definition malformed : string := "{token_address: oops".

Definition malformed_message : KafkaMessage :=
  {| value_of := Some malformed |}.

(** A topic with events of two instruments and one malformed payload. *)
Definition sample_log : list KafkaMessage :=
  [message eventA; malformed_message; message eventB; message eventA2].

(** A stand-in for the browser's date formatting, for the examples: the
    time label of a string is the string itself, and an object that has a
    field [toString] of its own cannot be converted. *)
Definition clock : Clock :=
  {| toLocaleTimeString := fun v =>
       match v with
       | Some (JStr s) => Normal s
       | Some (JObj fields) =>
           match lookup "toString" fields with
           | Some _ => Throw (TypeError "toString")
           | None => Normal "Invalid Date"
           end
       | _ => Normal "Invalid Date"
       end |}.

End Samples.

(* ===================================================================== *)
(** * Properties of the indicator engine *)
(* ===================================================================== *)

Module EngineProps.
Import Engine.
Local Open Scope Q_scope.

Section WithConfig.

Variable cfg : Config.

Lemma Wq_ge_1 : 1 <= Wq cfg.
Proof.
  unfold Wq, Qle; simpl. lia.
Qed.

Lemma Wn_ge_1 : (1 <= Wn cfg)%nat.
Proof. unfold Wn. lia. Qed.









Lemma update_phase_ok w s g l : phase_ok cfg (update cfg w s g l).
Proof.
  unfold phase_ok, update.
  destruct (Wn cfg <=? seen_count s)%nat eqn:E1;
    [|destruct (S (seen_count s) =? Wn cfg)%nat eqn:E2];
    cbn [warm seen_count]; symmetry.
  - apply Nat.leb_le in E1. apply Nat.leb_le. lia.
  - apply Nat.eqb_eq in E2. apply Nat.leb_le. lia.
  - apply Nat.leb_gt in E1. apply Nat.eqb_neq in E2. apply Nat.leb_gt. lia.
Qed.

Lemma update_seen_count w s g l :
  seen_count (update cfg w s g l) = S (seen_count s).
Proof.
  unfold update.
  destruct (Wn cfg <=? seen_count s)%nat;
    [|destruct (S (seen_count s) =? Wn cfg)%nat]; reflexivity.
Qed.

Lemma previous_price_none w : previous_price w = None <-> w = [].
Proof.
  unfold previous_price. split.
  - destruct (rev w) eqn:E; [|discriminate]. intros _.
    apply (f_equal (@rev Q)) in E. rewrite rev_involutive in E. exact E.
  - intros ->. reflexivity.
Qed.

Lemma previous_price_snoc w p : previous_price (w ++ [p]) = Some p.
Proof. unfold previous_price. rewrite rev_app_distr. reflexivity. Qed.

Lemma push_window_nonempty w p : fst (push cfg w p) <> [].
Proof.
  unfold push; cbn [fst].
  destruct (S (Wn cfg) <? length (w ++ [p]))%nat eqn:E.
  - apply Nat.ltb_lt in E. destruct (w ++ [p]) as [|a [|b r]]; simpl in *;
      try lia. discriminate.
  - destruct w; discriminate.
Qed.

Lemma process_window st t :
  window (fst (process cfg st t)) = fst (push cfg (window st) (trade_price t)).
Proof. reflexivity. Qed.

Lemma process_smoothed_first st t :
  window st = [] -> smoothed (fst (process cfg st t)) = smoothed st.
Proof. intros H. unfold process, push. rewrite H. reflexivity. Qed.

Lemma process_smoothed_next st t prev :
  previous_price (window st) = Some prev ->
  smoothed (fst (process cfg st t)) =
  update cfg (fst (push cfg (window st) (trade_price t))) (smoothed st)
    (gain_of (trade_price t - prev)) (loss_of (trade_price t - prev)).
Proof.
  intros H. unfold process. cbn [fst smoothed].
  replace (snd (push cfg (window st) (trade_price t)))
    with (Some (gain_of (trade_price t - prev), loss_of (trade_price t - prev)))
    by (unfold push; rewrite H; reflexivity).
  reflexivity.
Qed.

Lemma process_output st t :
  snd (process cfg st t) =
  let s := smoothed (fst (process cfg st t)) in
  if warm s then
    Some {| instrument_id := trade_instrument t;
            rsi_value := rsi s;
            current_price := trade_price t;
            timestamp := trade_timestamp t;
            result_period := period cfg;
            signal := classify cfg (rsi s) |}
  else None.
Proof. reflexivity. Qed.

Lemma window_cases (w : RollingWindow) :
  w = [] \/ exists prev, previous_price w = Some prev.
Proof.
  destruct (previous_price w) eqn:E.
  - right. eauto.
  - left. apply previous_price_none. exact E.
Qed.


Lemma process_phase_ok st t :
  phase_ok cfg (smoothed st) -> phase_ok cfg (smoothed (fst (process cfg st t))).
Proof.
  intros H. destruct (window_cases (window st)) as [E|[prev E]].
  - rewrite process_smoothed_first by exact E. exact H.
  - rewrite (process_smoothed_next _ _ _ E). apply update_phase_ok.
Qed.

Lemma ingest_invariant (I : InstrumentState -> list TradeEvent -> Prop) :
  (forall st t ts, I st (t :: ts) -> I (fst (process cfg st t)) ts) ->
  forall ts st, I st ts ->
    I (fst (ingest cfg st ts)) [] /\
    Forall (derived_from cfg I) (snd (ingest cfg st ts)).
Proof.
  intros Hstep. induction ts as [|t ts IH]; intros st HI.
  - simpl. split; [exact HI | constructor].
  - cbn [ingest fst snd].
    specialize (Hstep _ _ _ HI).
    destruct (IH _ Hstep) as [Hfin Hall].
    split; [exact Hfin|].
    rewrite process_output. cbv zeta.
    destruct (warm (smoothed (fst (process cfg st t)))) eqn:Ew; [|exact Hall].
    constructor; [|exact Hall].
    exists (fst (process cfg st t)), ts. auto.
Qed.

Lemma ingest_seen_count ts : forall st,
  window st <> [] ->
  seen_count (smoothed (fst (ingest cfg st ts))) =
  (seen_count (smoothed st) + length ts)%nat.
Proof.
  induction ts as [|t ts IH]; intros st Hw.
  - simpl. lia.
  - cbn [ingest fst length]. rewrite IH.
    + destruct (window_cases (window st)) as [E|[prev E]]; [contradiction|].
      rewrite (process_smoothed_next _ _ _ E), update_seen_count. lia.
    + rewrite process_window. apply push_window_nonempty.
Qed.

Lemma ingest_phase_ok ts : forall st,
  phase_ok cfg (smoothed st) -> phase_ok cfg (smoothed (fst (ingest cfg st ts))).
Proof.
  induction ts as [|t ts IH]; intros st H; [exact H|].
  cbn [ingest fst]. apply IH. apply process_phase_ok. exact H.
Qed.

Lemma ingest_published_count ts : forall st,
  window st <> [] -> phase_ok cfg (smoothed st) ->
  length (snd (ingest cfg st ts)) =
  (seen_count (smoothed st) + length ts
   - Nat.max (seen_count (smoothed st)) (Wn cfg - 1))%nat.
Proof.
  induction ts as [|t ts IH]; intros st Hw Hp.
  - simpl. lia.
  - cbn [ingest snd].
    assert (window (fst (process cfg st t)) <> []) as Hw1
      by (rewrite process_window; apply push_window_nonempty).
    pose proof (process_phase_ok st t Hp) as Hp1.
    specialize (IH _ Hw1 Hp1).
    destruct (window_cases (window st)) as [E|[prev E]]; [contradiction|].
    assert (seen_count (smoothed (fst (process cfg st t)))
            = S (seen_count (smoothed st))) as Hs
      by (rewrite (process_smoothed_next _ _ _ E); apply update_seen_count).
    rewrite Hs in IH. rewrite process_output. cbv zeta.
    rewrite Hp1, Hs.
    destruct (Wn cfg <=? S (seen_count (smoothed st)))%nat eqn:EW.
    + apply Nat.leb_le in EW. cbn [length]. rewrite IH. lia.
    + apply Nat.leb_gt in EW. rewrite IH. cbn [length]. lia.
Qed.

Lemma fresh_phase_ok : phase_ok cfg (smoothed fresh).
Proof.
  unfold phase_ok; cbn. symmetry. apply Nat.leb_gt. pose proof Wn_ge_1. lia.
Qed.

(** From a fresh instrument, one event is published for every price from the
    [(W+1)]-th on, and the instrument is warm exactly from that price on. *)
Lemma published_count ts :
  length (published cfg ts) = (length ts - Wn cfg)%nat.
Proof.
  unfold published. destruct ts as [|t ts]; [reflexivity|].
  cbn [ingest snd]. rewrite process_output. cbv zeta.
  rewrite process_smoothed_first by reflexivity. cbn [fresh smoothed warm].
  rewrite ingest_published_count.
  - rewrite process_smoothed_first by reflexivity.
    cbn [fresh smoothed seen_count length]. pose proof Wn_ge_1. lia.
  - rewrite process_window. apply push_window_nonempty.
  - apply process_phase_ok. apply fresh_phase_ok.
Qed.

Lemma final_warm ts :
  warm (smoothed (final_state cfg ts)) = (Wn cfg <? length ts)%nat.
Proof.
  unfold final_state.
  rewrite (ingest_phase_ok ts fresh fresh_phase_ok).
  destruct ts as [|t ts].
  - cbn. pose proof Wn_ge_1.
    destruct (Wn cfg) eqn:E; [lia|reflexivity].
  - cbn [ingest fst]. rewrite ingest_seen_count.
    + rewrite process_smoothed_first by reflexivity. cbn [fresh smoothed seen_count length].
      destruct (Wn cfg <=? 0 + length ts)%nat eqn:E1;
      destruct (Wn cfg <? S (length ts))%nat eqn:E2; try reflexivity.
      * apply Nat.leb_le in E1. apply Nat.ltb_ge in E2. lia.
      * apply Nat.leb_gt in E1. apply Nat.ltb_lt in E2. lia.
    + rewrite process_window. apply push_window_nonempty.
Qed.

Lemma gain_of_nonpos d : d <= 0 -> gain_of d == 0.
Proof. intros H. unfold gain_of. apply Q.max_r. exact H. Qed.

Lemma loss_of_nonneg_delta d : 0 <= d -> loss_of d == 0.
Proof. intros H. unfold loss_of. apply Q.max_r. lra. Qed.

Lemma loss_of_neg_delta d : d < 0 -> 0 < loss_of d.
Proof.
  intros H. unfold loss_of.
  apply Q.max_lt_iff. left. lra.
Qed.

Lemma Qsum_zero l : Forall (fun x => x == 0) l -> Qsum l == 0.
Proof.
  induction 1 as [|x l Hx _ IH]; simpl; [reflexivity|].
  rewrite Hx, IH. reflexivity.
Qed.

Lemma Qsum_pos l : l <> [] -> Forall (fun x => 0 < x) l -> 0 < Qsum l.
Proof.
  intros Hne H. induction H as [|x l Hx Hl IH]; [contradiction|].
  simpl. destruct l as [|y l].
  - simpl. lra.
  - assert (0 < Qsum (y :: l)) by (apply IH; discriminate). lra.
Qed.

Lemma div_W_zero x : x == 0 -> x / Wq cfg == 0.
Proof. intros ->. unfold Qdiv. ring. Qed.

Lemma div_W_pos x : 0 < x -> 0 < x / Wq cfg.
Proof.
  intros H. pose proof Wq_ge_1. apply Qlt_shift_div_l; lra.
Qed.

Lemma previous_price_in w prev : previous_price w = Some prev -> In prev w.
Proof.
  unfold previous_price. destruct (rev w) as [|x r] eqn:E; [discriminate|].
  intros [= ->]. apply in_rev. rewrite E. left. reflexivity.
Qed.

Lemma push_window_cases w p :
  fst (push cfg w p) = w ++ [p] \/ fst (push cfg w p) = tl (w ++ [p]).
Proof.
  unfold push; cbn [fst].
  destruct (S (Wn cfg) <? length (w ++ [p]))%nat; auto.
Qed.

Lemma push_window_in w p x : In x (fst (push cfg w p)) -> In x (w ++ [p]).
Proof.
  destruct (push_window_cases w p) as [-> | ->]; [auto|].
  destruct (w ++ [p]); simpl; auto.
Qed.

Lemma push_window_two w p : w <> [] -> (2 <= length (fst (push cfg w p)))%nat.
Proof.
  intros Hw. unfold push; cbn [fst].
  assert (2 <= length (w ++ [p]))%nat as H2.
  { rewrite length_app. destruct w; [contradiction|]. simpl. lia. }
  destruct (S (Wn cfg) <? length (w ++ [p]))%nat eqn:E; [|exact H2].
  apply Nat.ltb_lt in E. pose proof Wn_ge_1.
  destruct (w ++ [p]); simpl in *; lia.
Qed.

Lemma deltas_nonempty w : (2 <= length w)%nat -> deltas w <> [].
Proof. destruct w as [|a [|b r]]; simpl; try lia. discriminate. Qed.

(** ** Flat sequences *)

Lemma deltas_flat p w :
  (forall x, In x w -> x == p) -> Forall (fun d => d == 0) (deltas w).
Proof.
  induction w as [|a w IH]; intros H; [constructor|].
  destruct w as [|b r]; [constructor|].
  cbn [deltas]. constructor.
  - rewrite (H a), (H b) by (simpl; auto). ring.
  - apply IH. intros x Hx. apply H. right. exact Hx.
Qed.

Lemma update_flat p w s g l :
  (forall x, In x w -> x == p) ->
  avg_gain s == 0 -> avg_loss s == 0 -> g == 0 -> l == 0 ->
  avg_gain (update cfg w s g l) == 0 /\ avg_loss (update cfg w s g l) == 0.
Proof.
  intros Hw Ha Hb Hg Hl. unfold update.
  destruct (Wn cfg <=? seen_count s)%nat;
    [|destruct (S (seen_count s) =? Wn cfg)%nat]; cbn [avg_gain avg_loss].
  - rewrite Ha, Hb, Hg, Hl. split; unfold Qdiv; ring.
  - pose proof (deltas_flat p w Hw) as Hd.
    split; apply div_W_zero, Qsum_zero, Forall_map;
      (eapply Forall_impl; [|exact Hd]); intros d Hd0; cbv beta in *.
    + apply gain_of_nonpos. lra.
    + apply loss_of_nonneg_delta. lra.
  - split; assumption.
Qed.

Lemma process_flat p st t ts :
  flat_inv p st (t :: ts) -> flat_inv p (fst (process cfg st t)) ts.
Proof.
  intros (Hw & Hts & Ha & Hb).
  inversion Hts as [|? ? Ht Hrest]; subst.
  assert (forall x, In x (fst (push cfg (window st) (trade_price t))) -> x == p)
    as Hw'.
  { intros x Hx. apply push_window_in in Hx. apply in_app_or in Hx.
    destruct Hx as [Hx|[<-|[]]]; [apply Hw; exact Hx | exact Ht]. }
  split; [rewrite process_window; exact Hw'|].
  split; [exact Hrest|].
  destruct (window_cases (window st)) as [E|[prev E]].
  - rewrite process_smoothed_first by exact E. split; assumption.
  - rewrite (process_smoothed_next _ _ _ E).
    assert (trade_price t - prev == 0) as Hd.
    { rewrite Ht, (Hw prev (previous_price_in _ _ E)). ring. }
    apply (update_flat p); try assumption.
    + apply gain_of_nonpos. lra.
    + apply loss_of_nonneg_delta. lra.
Qed.

Lemma rsi_of_flat g l : g == 0 -> l == 0 -> rsi_of g l = 50.
Proof.
  intros Hg Hl. unfold rsi_of.
  apply Qeq_bool_iff in Hg. apply Qeq_bool_iff in Hl.
  rewrite Hg, Hl. reflexivity.
Qed.

Lemma classify_50 :
  oversold_threshold cfg <= 50 -> 50 <= overbought_threshold cfg ->
  classify cfg 50 = Neutral.
Proof.
  intros Hlo Hhi. unfold classify.
  apply Qle_bool_iff in Hlo. apply Qle_bool_iff in Hhi.
  rewrite Hlo, Hhi. reflexivity.
Qed.

(** ** Strictly decreasing sequences *)

Lemma descending_tl l : descending l -> descending (tl l).
Proof.
  destruct l as [|a [|b r]]; simpl; auto. intros [_ H]. exact H.
Qed.

Lemma descending_app_l l r : descending (l ++ r) -> descending l.
Proof.
  induction l as [|a l IH]; intros H; [exact I|].
  destruct l as [|b l]; [exact I|].
  cbn in H |- *. destruct H as [Hab H]. split; [exact Hab|].
  apply IH. exact H.
Qed.

Lemma descending_last w p r prev :
  descending (w ++ p :: r) -> previous_price w = Some prev -> p < prev.
Proof.
  induction w as [|a w IH]; intros H E; [discriminate|].
  destruct w as [|b w].
  - cbn in E. injection E as <-. cbn in H. tauto.
  - apply IH.
    + cbn in H |- *. tauto.
    + unfold previous_price in *. cbn [rev] in *.
      destruct (rev w ++ [b]) as [|x rest] eqn:Er.
      * destruct (rev w); discriminate.
      * cbn in E |- *. exact E.
Qed.

Lemma deltas_descending w : descending w -> Forall (fun d => d < 0) (deltas w).
Proof.
  induction w as [|a w IH]; intros H; [constructor|].
  destruct w as [|b r]; [constructor|].
  cbn [deltas]. destruct H as [Hab H]. constructor; [lra | apply IH; exact H].
Qed.

Lemma update_desc w s g l :
  descending w -> (2 <= length w)%nat ->
  phase_ok cfg s ->
  (warm s = true -> avg_gain s == 0 /\ 0 < avg_loss s) ->
  g == 0 -> 0 < l ->
  warm (update cfg w s g l) = true ->
  avg_gain (update cfg w s g l) == 0 /\ 0 < avg_loss (update cfg w s g l).
Proof.
  intros Hw Hlen Hp Hs Hg Hl. unfold update. unfold phase_ok in Hp.
  destruct (Wn cfg <=? seen_count s)%nat;
    [|destruct (S (seen_count s) =? Wn cfg)%nat];
    cbn [avg_gain avg_loss warm]; intros Hwarm.
  - destruct (Hs Hp) as [Ha Hb]. split.
    + rewrite Ha, Hg. unfold Qdiv. ring.
    + apply div_W_pos. pose proof Wq_ge_1.
      assert (0 <= avg_loss s * (Wq cfg - 1)) by (apply Qmult_le_0_compat; lra).
      lra.
  - pose proof (deltas_descending w Hw) as Hd. split.
    + apply div_W_zero, Qsum_zero, Forall_map.
      eapply Forall_impl; [|exact Hd]. intros d Hd0; cbv beta in *.
      apply gain_of_nonpos. lra.
    + apply div_W_pos, Qsum_pos.
      * intros E. apply map_eq_nil in E. revert E. apply deltas_nonempty, Hlen.
      * apply Forall_map. eapply Forall_impl; [|exact Hd].
        intros d Hd0; cbv beta in *. apply loss_of_neg_delta. exact Hd0.
  - discriminate.
Qed.

Lemma process_desc st t ts :
  desc_inv cfg st (t :: ts) -> desc_inv cfg (fst (process cfg st t)) ts.
Proof.
  intros (Hd & Hp & Hs). cbn [map] in Hd.
  assert (descending (fst (push cfg (window st) (trade_price t))
                      ++ map trade_price ts)) as Hd'.
  { destruct (push_window_cases (window st) (trade_price t)) as [-> | ->].
    - rewrite <- app_assoc. exact Hd.
    - replace (tl (window st ++ [trade_price t]) ++ map trade_price ts)
        with (tl (window st ++ trade_price t :: map trade_price ts)).
      + apply descending_tl, Hd.
      + destruct (window st); cbn [app tl]; [reflexivity|].
        rewrite <- app_assoc. reflexivity. }
  split; [rewrite process_window; exact Hd'|].
  split; [apply process_phase_ok, Hp|].
  destruct (window_cases (window st)) as [E|[prev E]].
  - rewrite process_smoothed_first by exact E. exact Hs.
  - rewrite (process_smoothed_next _ _ _ E).
    pose proof (descending_last _ _ _ _ Hd E) as Hlt.
    apply update_desc; try assumption.
    + apply descending_app_l in Hd'. exact Hd'.
    + apply push_window_two. intros E0. rewrite E0 in E. discriminate.
    + apply gain_of_nonpos. lra.
    + apply loss_of_neg_delta. lra.
Qed.

Lemma rsi_of_only_losses g l : g == 0 -> 0 < l -> rsi_of g l == 0.
Proof.
  intros Hg Hl. unfold rsi_of.
  assert (Qeq_bool l 0 = false) as ->.
  { destruct (Qeq_bool l 0) eqn:E; [|reflexivity].
    apply Qeq_bool_iff in E. lra. }
  cbn [andb]. rewrite Hg. field. lra.
Qed.

(** A strictly decreasing sequence of more than [W] prices warms the instrument
    with [avg_gain = 0 < avg_loss], so every RSI derived for it is 0. *)
Lemma decreasing_rsi_zero ts :
  descending (map trade_price ts) -> (Wn cfg < length ts)%nat ->
  warm (smoothed (final_state cfg ts)) = true /\
  rsi (smoothed (final_state cfg ts)) == 0 /\
  published cfg ts <> [] /\
  Forall (fun ev => rsi_value ev == 0) (published cfg ts).
Proof.
  intros Hd Hlen.
  destruct (ingest_invariant (desc_inv cfg) process_desc ts fresh) as [(_ & _ & Hs) Hall].
  { split; [exact Hd|]. split; [apply fresh_phase_ok | discriminate]. }
  assert (warm (smoothed (final_state cfg ts)) = true) as Hw
    by (rewrite final_warm; apply Nat.ltb_lt; exact Hlen).
  split; [exact Hw|]. split; [|split].
  - destruct (Hs Hw). apply rsi_of_only_losses; assumption.
  - intros E. apply (f_equal (@length _)) in E.
    rewrite published_count in E. cbn in E. lia.
  - eapply Forall_impl; [|exact Hall].
    intros ev (st & ts' & (_ & _ & Hs') & Hw' & -> & _).
    destruct (Hs' Hw'). apply rsi_of_only_losses; assumption.
Qed.

End WithConfig.


(** C3. A flat price sequence (every consecutive delta is zero) fed to a fresh
    instrument leaves both smoothed averages at zero; every Result Event
    published for it carries RSI exactly 50 with the neutral signal, and one
    is published for every price from the (W+1)-th on. *)
Theorem flat_sequence_rsi_50 (cfg : Config) (p : Q) (ts : list TradeEvent) :
  oversold_threshold cfg <= 50 -> 50 <= overbought_threshold cfg ->
  Forall (fun t => trade_price t == p) ts ->
  Forall (fun ev => rsi_value ev = 50 /\ signal ev = Neutral) (published cfg ts) /\
  length (published cfg ts) = (length ts - Wn cfg)%nat /\
  avg_gain (smoothed (final_state cfg ts)) == 0 /\
  avg_loss (smoothed (final_state cfg ts)) == 0 /\
  rsi (smoothed (final_state cfg ts)) = 50.
Proof.
  intros Hlo Hhi Hflat.
  destruct (ingest_invariant cfg (flat_inv p) (process_flat cfg p) ts fresh)
    as [(_ & _ & Hg & Hl) Hall].
  { repeat split; try reflexivity; [intros x []|exact Hflat]. }
  split; [|split; [apply published_count|]].
  - unfold published. eapply Forall_impl; [|exact Hall].
    intros ev (st & ts' & (_ & _ & Hg' & Hl') & _ & Hr & Hs).
    unfold rsi in *. rewrite (rsi_of_flat _ _ Hg' Hl') in *.
    split; [exact Hr|]. rewrite Hs. apply classify_50; assumption.
  - repeat split; try assumption. apply rsi_of_flat; assumption.
Qed.

Lemma flat_sequence_rsi_50_witness :
  Forall (fun ev => rsi_value ev = 50 /\ signal ev = Neutral)
    (published default_config flat16) /\
  length (published default_config flat16) = 2%nat.
Proof.
  destruct (flat_sequence_rsi_50 default_config 7 flat16) as (H1 & H2 & _).
  - vm_compute. discriminate.
  - vm_compute. discriminate.
  - unfold flat16. apply Forall_forall. intros t Ht.
    apply repeat_spec in Ht. subst t. reflexivity.
  - split; [exact H1 | exact H2].
Defined.

(** C4. With the default configuration (W = 14), the fifteen prices 1..15 fed
    to a fresh instrument leave it cold after each of the first fourteen
    prices and warm after the fifteenth, and the only Result Event published
    carries RSI 100 with the overbought signal.  Symmetrically, for every
    period W, any strictly decreasing sequence of more than W prices warms the
    instrument and yields RSI 0, at the final state and in every published
    Result Event. *)
Theorem rising_window_rsi_100_falling_rsi_0 :
  (forall k, (k < 15)%nat ->
     warm (smoothed (final_state default_config (firstn k rising15))) = false) /\
  warm (smoothed (final_state default_config rising15)) = true /\
  (exists ev, published default_config rising15 = [ev] /\
              rsi_value ev = 100 /\ signal ev = Overbought) /\
  (forall cfg ts,
     descending (map trade_price ts) -> (Wn cfg < length ts)%nat ->
     warm (smoothed (final_state cfg ts)) = true /\
     rsi (smoothed (final_state cfg ts)) == 0 /\
     published cfg ts <> [] /\
     Forall (fun ev => rsi_value ev == 0) (published cfg ts)).
Proof.
  split; [|split; [|split]].
  - intros k Hk. rewrite final_warm. apply Nat.ltb_ge.
    rewrite length_firstn.
    change (Wn default_config) with 14%nat.
    change (length rising15) with 15%nat. lia.
  - vm_compute. reflexivity.
  - eexists. split; [vm_compute; reflexivity|]. split; reflexivity.
  - apply decreasing_rsi_zero.
Qed.

(** The literal falling sequence 15..1 with W = 14. *)
Example falling15_rsi_zero :
  exists ev, published default_config falling15 = [ev] /\ rsi_value ev == 0 /\
             signal ev = Oversold.
Proof.
  eexists. split; [vm_compute; reflexivity|]. split; reflexivity.
Qed.

End EngineProps.


(* ===================================================================== *)
(** * Properties of the indicator engine in binary64 *)
(* ===================================================================== *)

Module EngineFProps.
Import EngineF.

Section WithConfig.

Variable cfg : Config.


















End WithConfig.



End EngineFProps.

(* ===================================================================== *)
(** * Properties of the relay route *)
(* ===================================================================== *)

Module StreamProps.
Import Js Stream.
Local Open Scope string_scope.
Local Open Scope list_scope.

Section WithCodec.
Context {codec : JsonCodec}.

Lemma frame_sseData j : frame j = TextEncoder_encode (sseData j).
Proof. reflexivity. Qed.

Lemma strict_equal_instrument fields sel :
  strict_equal_string (lookup "token_address" fields) sel =
  match instrument_of (JObj fields) with
  | Some id => String.eqb sel id
  | None => false
  end.
Proof.
  unfold instrument_of, strict_equal_string.
  destruct (lookup "token_address" fields) as [[| | |t| |]|]; try reflexivity.
  apply String.eqb_sym.
Qed.

Lemma parsed_cons m ms : parsed (m :: ms) = parsed [m] ++ parsed ms.
Proof. unfold parsed. cbn [flat_map]. rewrite app_nil_r. reflexivity. Qed.

Lemma parsed_app a b : parsed (a ++ b) = parsed a ++ parsed b.
Proof. unfold parsed. apply flat_map_app. Qed.

Lemma parsed_in j ms :
  In j (parsed ms) <->
  exists m payload,
    In m ms /\ value_of m = Some payload /\ JSON_parse payload = Normal j.
Proof.
  unfold parsed. rewrite in_flat_map. split.
  - intros (m & Hm & Hj).
    destruct (value_of m) as [payload|] eqn:Ev; [|contradiction].
    destruct (JSON_parse payload) as [j'|e] eqn:Ep; [|contradiction].
    destruct Hj as [<-|[]]. exists m, payload. auto.
  - intros (m & payload & Hm & Ev & Ep).
    exists m. split; [exact Hm|]. rewrite Ev, Ep. left. reflexivity.
Qed.

(** What one handler call does to the queue. *)
Lemma eachMessage_queue sel st m :
  queue (eachMessage sel st m)
  = queue st ++ map frame (filter (filter_matches sel) (parsed [m])).
Proof.
  unfold eachMessage, parsed. cbn [flat_map].
  destruct (value_of m) as [payload|]; [|cbn; rewrite app_nil_r; reflexivity].
  unfold try_block.
  destruct (JSON_parse payload) as [j|e];
    cbn [bind]; [|cbn; rewrite app_nil_r; reflexivity].
  rewrite app_nil_r. cbn [filter]. unfold filter_matches.
  destruct (String.eqb sel "all"); cbn [negb orb bind].
  - reflexivity.
  - destruct j as [| | | | |fields]; cbn [get_property bind];
      try (cbn; rewrite app_nil_r; reflexivity).
    rewrite strict_equal_instrument.
    destruct (match instrument_of (JObj fields) with
              | Some id => String.eqb sel id
              | None => false
              end); cbn; [reflexivity | rewrite app_nil_r; reflexivity].
Qed.

Lemma consumer_run_cons sel st m ms :
  consumer_run sel st (m :: ms) = consumer_run sel (eachMessage sel st m) ms.
Proof. reflexivity. Qed.

Lemma consumer_run_app sel st a b :
  consumer_run sel st (a ++ b) = consumer_run sel (consumer_run sel st a) b.
Proof. unfold consumer_run. apply fold_left_app. Qed.

(** The queue after a run: the frames of the matching events, in order,
    appended to what was there. *)
Lemma consumer_run_queue sel ms : forall st,
  queue (consumer_run sel st ms)
  = queue st ++ map frame (filter (filter_matches sel) (parsed ms)).
Proof.
  induction ms as [|m ms IH]; intros st.
  - cbn. rewrite app_nil_r. reflexivity.
  - rewrite (parsed_cons m ms), consumer_run_cons, IH, eachMessage_queue.
    rewrite filter_app, map_app, app_assoc. reflexivity.
Qed.

Lemma filter_all_true {A} (f : A -> bool) l :
  Forall (fun x => f x = true) l -> filter f l = l.
Proof.
  induction 1 as [|x l Hx _ IH]; [reflexivity|].
  cbn. rewrite Hx, IH. reflexivity.
Qed.

Lemma with_console_same st : with_console st (console st) = st.
Proof. destruct st; reflexivity. Qed.

(** A handler call appends to the console without reading it. *)
Lemma eachMessage_console sel st m :
  exists errs, forall c,
    eachMessage sel (with_console st c) m
    = with_console (eachMessage sel st m) (c ++ errs).
Proof.
  unfold eachMessage.
  destruct (value_of m) as [payload|].
  2:{ exists []. intros c. rewrite app_nil_r. reflexivity. }
  unfold try_block.
  destruct (JSON_parse payload) as [j|e]; cbn [bind].
  2:{ eexists. intros c. reflexivity. }
  destruct (negb (String.eqb sel "all")); cbn [bind].
  - destruct (get_property j "token_address") as [tok|e]; cbn [bind].
    + destruct (negb (strict_equal_string tok sel));
        exists []; intros c; rewrite app_nil_r; reflexivity.
    + eexists. intros c. reflexivity.
  - exists []. intros c. rewrite app_nil_r. reflexivity.
Qed.

Lemma consumer_run_console sel ms : forall st,
  exists errs, forall c,
    consumer_run sel (with_console st c) ms
    = with_console (consumer_run sel st ms) (c ++ errs).
Proof.
  induction ms as [|m ms IH]; intros st.
  - exists []. intros c. rewrite app_nil_r. reflexivity.
  - destruct (eachMessage_console sel st m) as [e1 H1].
    destruct (IH (eachMessage sel st m)) as [e2 H2].
    exists (e1 ++ e2). intros c.
    rewrite !consumer_run_cons, H1, H2, app_assoc. reflexivity.
Qed.

(** A message whose payload does not parse is logged and nothing else. *)
Lemma eachMessage_malformed sel st m payload e :
  value_of m = Some payload -> JSON_parse payload = Throw e ->
  eachMessage sel st m = console_error st "Error processing message:" e.
Proof.
  intros Hv Hp. unfold eachMessage, try_block. rewrite Hv, Hp. reflexivity.
Qed.

Lemma malformed_contained sel st pre bad post payload e :
  value_of bad = Some payload -> JSON_parse payload = Throw e ->
  exists errs,
    queue (consumer_run sel st (pre ++ bad :: post))
    = queue (consumer_run sel st (pre ++ post)) /\
    console (consumer_run sel st (pre ++ post))
    = console (consumer_run sel st pre) ++ errs /\
    console (consumer_run sel st (pre ++ bad :: post))
    = console (consumer_run sel st pre)
      ++ mkLog "Error processing message:" e :: errs.
Proof.
  intros Hv Hp.
  rewrite !consumer_run_app, consumer_run_cons.
  rewrite (eachMessage_malformed sel _ bad payload e Hv Hp).
  set (s1 := consumer_run sel st pre).
  destruct (consumer_run_console sel post s1) as [errs H].
  exists errs.
  pose proof (H (console s1)) as H0. rewrite with_console_same in H0.
  pose proof (H (console s1 ++ [mkLog "Error processing message:" e])) as H1.
  change (with_console s1 (console s1 ++ [mkLog "Error processing message:" e]))
    with (console_error s1 "Error processing message:" e) in H1.
  rewrite H1. cbn [queue console with_console].
  split; [reflexivity|]. split.
  - rewrite H0 at 1. reflexivity.
  - rewrite <- app_assoc. reflexivity.
Qed.


(** The route subscribes with [fromBeginning = false] whatever the request
    is; so a session that owns the partition in a group that has committed
    no offset starts at the end of the topic and handles only what is
    published after it subscribed. *)
Lemma first_session_starts_at_latest
  (request : Request) (broker : Broker) (member : nat)
  (before after : list KafkaMessage) :
  committed (broker groupId) = None ->
  owner (broker groupId) = member ->
  fromBeginning subscription = false /\
  start_offset subscription (broker groupId) before = length before /\
  GET request broker member before after
  = consumer_run (selectedToken request) open_session after.
Proof.
  intros Hc Ho.
  assert (start_offset subscription (broker groupId) before = length before)
    as Hs by (unfold start_offset; rewrite Hc; reflexivity).
  split; [reflexivity|]. split; [exact Hs|].
  unfold GET, delivered. rewrite Ho, Nat.eqb_refl, Hs.
  rewrite skipn_app, skipn_all, Nat.sub_diag. reflexivity.
Qed.

(** C6 (as the code has it). The session's outbound queue is unbounded: a run
    over events that all match the filter appends the frame of every one of
    them, in publish order; nothing is dropped, whatever the length of the
    burst. *)
Theorem outbound_queue_keeps_every_frame sel st ms :
  Forall (fun j => filter_matches sel j = true) (parsed ms) ->
  queue (consumer_run sel st ms) = queue st ++ map frame (parsed ms) /\
  length (queue (consumer_run sel st ms))
  = length (queue st) + length (parsed ms).
Proof.
  intros Hall.
  rewrite consumer_run_queue, (filter_all_true _ _ Hall).
  split; [reflexivity|]. rewrite length_app, length_map. reflexivity.
Qed.

(** C8. Every chunk a run enqueues is the encoding of the text [data: ],
    the JSON serialization of one delivered event that matches the filter,
    and two line feeds; the chunks already queued are left as they were. *)
Theorem frames_are_sse_data sel st ms :
  exists events,
    queue (consumer_run sel st ms)
    = queue st ++
      map (fun j => TextEncoder_encode ("data: " ++ JSON_stringify j ++ LF ++ LF))
          events /\
    Forall (fun j =>
              filter_matches sel j = true /\
              exists m payload,
                In m ms /\ value_of m = Some payload /\
                JSON_parse payload = Normal j) events.
Proof.
  exists (filter (filter_matches sel) (parsed ms)).
  split; [apply consumer_run_queue|].
  apply Forall_forall. intros j Hj. apply filter_In in Hj.
  destruct Hj as [Hj Hm]. split; [exact Hm|]. apply parsed_in. exact Hj.
Qed.

(** C9. When the [token] query parameter is absent or empty the selected
    token is "all": every event matches the filter and the run enqueues the
    frame of every delivered event. *)
Theorem missing_token_selects_all (request : Request) :
  searchParams_get "token" (searchParams request) = None \/
  searchParams_get "token" (searchParams request) = Some "" ->
  selectedToken request = "all" /\
  (forall j, filter_matches (selectedToken request) j = true) /\
  (forall st ms,
     queue (consumer_run (selectedToken request) st ms)
     = queue st ++ map frame (parsed ms)).
Proof.
  intros H.
  assert (selectedToken request = "all") as ->
    by (unfold selectedToken; destruct H as [-> | ->]; reflexivity).
  split; [reflexivity|]. split; [reflexivity|].
  intros st ms. rewrite consumer_run_queue, filter_all_true; [reflexivity|].
  apply Forall_forall. intros j _. reflexivity.
Qed.

End WithCodec.

(** ** The routes on the sample documents *)

Example parse_sample j :
  In j Samples.documents -> Samples.parse (Samples.stringify j) = Normal j.
Proof.
  intros H. repeat (destruct H as [<-|H]; [vm_compute; reflexivity|]).
  destruct H.
Qed.

Lemma parsed_burst n :
  parsed (codec := Samples.codec) (repeat (Samples.message Samples.eventA) n)
  = repeat Samples.eventA n.
Proof.
  induction n as [|n IH]; [reflexivity|].
  cbn [repeat]. rewrite parsed_cons, IH. reflexivity.
Qed.

Lemma length_lastn {A} n (l : list A) : length (lastn n l) = Nat.min n (length l).
Proof. unfold lastn. rewrite length_skipn. lia. Qed.


(** C5. A session created after the group has committed an offset is handed
    events published before it was created.  A first session handles
    [eventA] and leaves offset 1 committed; [eventB] is then published while
    no session is connected; the next session subscribes to the topic
    [eventA; eventB] and is handed [eventB]. *)
Theorem later_session_is_handed_earlier_events :
  let start := fun _ : string => {| committed := None; owner := 0 |} in
  let first := GET (codec := Samples.codec) (mkRequest []) start 0
                 [] [Samples.message Samples.eventA] in
  let left := fun _ : string =>
                commit_handled (start groupId) 0
                  [] [Samples.message Samples.eventA] in
  let second := GET (codec := Samples.codec) (mkRequest []) left 0
                  [Samples.message Samples.eventA; Samples.message Samples.eventB]
                  [] in
  queue first = [frame (codec := Samples.codec) Samples.eventA] /\
  committed (left groupId) = Some 1 /\
  queue second = [frame (codec := Samples.codec) Samples.eventB].
Proof. vm_compute. repeat split; reflexivity. Qed.

(** C7 (as stated) fails: a payload that parses is never checked against the
    shape of an event; the JSON text [null] is forwarded as a frame by a
    session with filter "all", with nothing logged. *)
Lemma null_payload_is_forwarded :
  ~ skips_every_ill_formed_event (codec := Samples.codec).
Proof.
  intros H.
  destruct (H "all" open_session (Samples.message JNull)
              (Samples.stringify JNull) eq_refl) as [Hq _].
  - intros j Hj. vm_compute in Hj. injection Hj as <-. reflexivity.
  - vm_compute in Hq. discriminate.
Qed.

(** C6 (as stated) fails: no capacity [N] makes the session behave as a
    drop-oldest buffer; a burst of [N+1] events leaves [N+1] frames queued. *)
Lemma no_bounded_drop_oldest_buffer :
  ~ exists N, drops_oldest (codec := Samples.codec) N.
Proof.
  intros [N H].
  specialize (H "all" (repeat (Samples.message Samples.eventA) (S N))).
  rewrite parsed_burst in H.
  assert (length (queue (consumer_run (codec := Samples.codec) "all"
                           open_session
                           (repeat (Samples.message Samples.eventA) (S N))))
          = S N) as Hlen.
  { rewrite consumer_run_queue, parsed_burst. cbn [queue open_session app].
    rewrite filter_all_true
      by (apply Forall_forall; intros j _; reflexivity).
    rewrite length_map, repeat_length. reflexivity. }
  rewrite H in Hlen.
  - rewrite length_lastn, length_map, repeat_length in Hlen. lia.
  - apply Forall_forall. intros j _. reflexivity.
  - rewrite repeat_length. lia.
Qed.

Lemma outbound_queue_keeps_every_frame_witness :
  length (queue (consumer_run (codec := Samples.codec) "TokenA" open_session Samples.burst))
  = 3.
Proof.
  apply (outbound_queue_keeps_every_frame (codec := Samples.codec)
           "TokenA" open_session Samples.burst).
  vm_compute. repeat constructor.
Defined.

Lemma missing_token_selects_all_witness :
  selectedToken (mkRequest []) = "all" /\
  selectedToken (mkRequest [("token", "")]) = "all".
Proof.
  split.
  - apply (missing_token_selects_all (codec := Samples.codec) (mkRequest [])).
    left. reflexivity.
  - apply (missing_token_selects_all (codec := Samples.codec)
             (mkRequest [("token", "")])).
    right. reflexivity.
Defined.

(** A session filtered on TokenA over a mixed log: two frames, two errors. *)
Example filtered_session :
  let st := consumer_run (codec := Samples.codec) "TokenA" open_session
              [Samples.message Samples.eventA; Samples.malformed_message;
               Samples.message Samples.eventB; Samples.message JNull;
               Samples.message Samples.eventA2] in
  queue st = [frame (codec := Samples.codec) Samples.eventA;
              frame (codec := Samples.codec) Samples.eventA2] /\
  map log_error (console st)
  = [SyntaxError Samples.malformed; TypeError "token_address"].
Proof. vm_compute. split; reflexivity. Qed.

End StreamProps.

(* ===================================================================== *)
(** * Properties of the discovery route, and malformed messages *)
(* ===================================================================== *)

Module TokensProps.
Import Js.
Local Open Scope string_scope.
Local Open Scope list_scope.

Section WithCodec.
Context {codec : JsonCodec}.

Lemma tokens_with_console_same st :
  Tokens.with_console st (Tokens.console st) = st.
Proof. destruct st; reflexivity. Qed.

Lemma tokens_eachMessage_console st m :
  exists errs, forall c,
    Tokens.eachMessage (Tokens.with_console st c) m
    = Tokens.with_console (Tokens.eachMessage st m) (c ++ errs).
Proof.
  unfold Tokens.eachMessage.
  destruct (value_of m) as [payload|].
  2:{ exists []. intros c. rewrite app_nil_r. reflexivity. }
  unfold Tokens.try_block.
  destruct (JSON_parse payload) as [trade|e]; cbn [bind].
  2:{ eexists. intros c. reflexivity. }
  destruct (get_property trade "token_address") as [tok|e]; cbn [bind].
  - exists []. intros c. rewrite app_nil_r. reflexivity.
  - eexists. intros c. reflexivity.
Qed.

Lemma tokens_run_console ms : forall st,
  exists errs, forall c,
    Tokens.consumer_run (Tokens.with_console st c) ms
    = Tokens.with_console (Tokens.consumer_run st ms) (c ++ errs).
Proof.
  induction ms as [|m ms IH]; intros st.
  - exists []. intros c. rewrite app_nil_r. reflexivity.
  - cbn [Tokens.consumer_run Tokens.with_console Tokens.connected].
    destruct (Tokens.connected st).
    + destruct (tokens_eachMessage_console st m) as [e1 H1].
      destruct (IH (Tokens.eachMessage st m)) as [e2 H2].
      exists (e1 ++ e2). intros c. rewrite H1, H2, app_assoc. reflexivity.
    + exists []. intros c. rewrite app_nil_r. reflexivity.
Qed.

Lemma tokens_run_app a : forall st b,
  Tokens.consumer_run st (a ++ b)
  = Tokens.consumer_run (Tokens.consumer_run st a) b.
Proof.
  induction a as [|m a IH]; intros st b; [reflexivity|].
  cbn [app Tokens.consumer_run].
  destruct (Tokens.connected st) eqn:E; [apply IH|].
  destruct b; cbn [Tokens.consumer_run]; [|rewrite E]; reflexivity.
Qed.

Lemma tokens_eachMessage_malformed st m payload e :
  value_of m = Some payload -> JSON_parse payload = Throw e ->
  Tokens.eachMessage st m = Tokens.console_error st "Error parsing message:" e.
Proof.
  intros Hv Hp. unfold Tokens.eachMessage, Tokens.try_block.
  rewrite Hv, Hp. reflexivity.
Qed.

Lemma tokens_malformed_contained st pre bad post payload e :
  value_of bad = Some payload -> JSON_parse payload = Throw e ->
  Tokens.connected (Tokens.consumer_run st pre) = true ->
  exists errs,
    Tokens.outcome (Tokens.consumer_run st (pre ++ bad :: post))
    = Tokens.outcome (Tokens.consumer_run st (pre ++ post)) /\
    Tokens.console (Tokens.consumer_run st (pre ++ post))
    = Tokens.console (Tokens.consumer_run st pre) ++ errs /\
    Tokens.console (Tokens.consumer_run st (pre ++ bad :: post))
    = Tokens.console (Tokens.consumer_run st pre)
      ++ mkLog "Error parsing message:" e :: errs.
Proof.
  intros Hv Hp Hc.
  rewrite !tokens_run_app.
  set (s1 := Tokens.consumer_run st pre) in *.
  cbn [Tokens.consumer_run]. rewrite Hc.
  rewrite (tokens_eachMessage_malformed s1 bad payload e Hv Hp).
  destruct (tokens_run_console post s1) as [errs H].
  exists errs.
  pose proof (H (Tokens.console s1)) as H0.
  rewrite tokens_with_console_same in H0.
  pose proof (H (Tokens.console s1 ++ [mkLog "Error parsing message:" e])) as H1.
  change (Tokens.with_console s1
            (Tokens.console s1 ++ [mkLog "Error parsing message:" e]))
    with (Tokens.console_error s1 "Error parsing message:" e) in H1.
  rewrite H1. unfold Tokens.outcome.
  cbn [Tokens.tokens Tokens.messageCount Tokens.connected Tokens.console
       Tokens.with_console].
  split; [reflexivity|]. split.
  - rewrite H0 at 1. reflexivity.
  - rewrite <- app_assoc. reflexivity.
Qed.

(** C7 (as the code has it). A delivered message on whose payload
    [JSON.parse] throws is logged and skipped, in the relay route and in the
    discovery route alike: the handler
    only adds one console entry, and in a run the messages before and after
    it are handled exactly as if it had not been there (same queue, same
    tokens, message count and connection state, same other console
    entries). *)
Theorem malformed_message_is_logged_and_skipped
  (bad : KafkaMessage) (payload : string) (e : error) :
  value_of bad = Some payload ->
  JSON_parse payload = Throw e ->
  (forall sel st pre post,
     Stream.eachMessage sel st bad
     = Stream.console_error st "Error processing message:" e /\
     exists errs,
       Stream.queue (Stream.consumer_run sel st (pre ++ bad :: post))
       = Stream.queue (Stream.consumer_run sel st (pre ++ post)) /\
       Stream.console (Stream.consumer_run sel st (pre ++ post))
       = Stream.console (Stream.consumer_run sel st pre) ++ errs /\
       Stream.console (Stream.consumer_run sel st (pre ++ bad :: post))
       = Stream.console (Stream.consumer_run sel st pre)
         ++ mkLog "Error processing message:" e :: errs) /\
  (forall st pre post,
     Tokens.eachMessage st bad
     = Tokens.console_error st "Error parsing message:" e /\
     (Tokens.connected (Tokens.consumer_run st pre) = true ->
      exists errs,
        Tokens.outcome (Tokens.consumer_run st (pre ++ bad :: post))
        = Tokens.outcome (Tokens.consumer_run st (pre ++ post)) /\
        Tokens.console (Tokens.consumer_run st (pre ++ post))
        = Tokens.console (Tokens.consumer_run st pre) ++ errs /\
        Tokens.console (Tokens.consumer_run st (pre ++ bad :: post))
        = Tokens.console (Tokens.consumer_run st pre)
          ++ mkLog "Error parsing message:" e :: errs)).
Proof.
  intros Hv Hp. split.
  - intros sel st pre post. split.
    + apply (StreamProps.eachMessage_malformed sel st bad payload e Hv Hp).
    + apply (StreamProps.malformed_contained sel st pre bad post payload e Hv Hp).
  - intros st pre post. split.
    + apply (tokens_eachMessage_malformed st bad payload e Hv Hp).
    + apply (tokens_malformed_contained st pre bad post payload e Hv Hp).
Qed.

End WithCodec.

Lemma malformed_message_is_logged_and_skipped_witness :
  Stream.eachMessage (codec := Samples.codec) "all" Stream.open_session
    Samples.malformed_message
  = Stream.console_error Stream.open_session "Error processing message:"
      (SyntaxError Samples.malformed) /\
  Tokens.eachMessage (codec := Samples.codec) Tokens.initial
    Samples.malformed_message
  = Tokens.console_error Tokens.initial "Error parsing message:"
      (SyntaxError Samples.malformed).
Proof.
  destruct (malformed_message_is_logged_and_skipped (codec := Samples.codec)
              Samples.malformed_message Samples.malformed
              (SyntaxError Samples.malformed) eq_refl eq_refl) as [HS HT].
  split.
  - apply (HS "all" Stream.open_session [] []).
  - apply (HT Tokens.initial [] []).
Defined.

(** The discovery route over a mixed log. *)
Example discovery_run :
  let st := Tokens.consumer_run (codec := Samples.codec) Tokens.initial
              [Samples.message Samples.eventA; Samples.malformed_message;
               Samples.message Samples.eventB; Samples.message Samples.eventA2] in
  Tokens.outcome st = ([JStr "TokenA"; JStr "TokenB"], 3, true).
Proof. vm_compute. reflexivity. Qed.

End TokensProps.

(* ===================================================================== *)
(** * Properties of the dashboard chart buffer *)
(* ===================================================================== *)

Module DashboardProps.
Import Js Dashboard.
Local Open Scope list_scope.

Lemma slice_last_50 {A} (l : list A) : slice (-50) l = lastn 50 l.
Proof.
  unfold slice, lastn. cbn [Z.ltb Z.compare]. f_equal. lia.
Qed.

Lemma lastn_short {A} n (l : list A) : length l <= n -> lastn n l = l.
Proof.
  intros H. unfold lastn. replace (length l - n) with 0 by lia. reflexivity.
Qed.

Lemma lastn_length_le {A} n (l : list A) : length (lastn n l) <= n.
Proof. unfold lastn. rewrite length_skipn. lia. Qed.

Lemma lastn_app {A} n (a b : list A) :
  lastn n (lastn n a ++ b) = lastn n (a ++ b).
Proof.
  destruct (Nat.le_gt_cases (length a) n) as [H|H].
  - rewrite (lastn_short n a H). reflexivity.
  - unfold lastn. rewrite !length_app, length_skipn.
    rewrite !skipn_app, length_skipn, skipn_skipn.
    f_equal; f_equal; lia.
Qed.

Lemma lastn_full {A} n (l : list A) x :
  0 < n -> length l = n -> lastn n (l ++ [x]) = tl l ++ [x].
Proof.
  intros Hn H. unfold lastn. rewrite length_app. cbn [length].
  replace (length l + 1 - n) with 1 by lia.
  destruct l as [|y l]; [|reflexivity].
  cbn in H. lia.
Qed.

Section WithRuntime.
Context {codec : JsonCodec} {clock : Clock}.

Lemma onmessage_charted st data rsiData point :
  JSON_parse data = Normal rsiData -> newDataPoint rsiData = Normal point ->
  chartData (onmessage st data) = lastn 50 (chartData st ++ [point]).
Proof.
  intros Hp Hn. unfold onmessage. rewrite Hp, Hn.
  cbn [setChartData setCurrentData chartData]. apply slice_last_50.
Qed.

Lemma onmessage_chart st data :
  length (chartData st) <= 50 ->
  chartData (onmessage st data) = lastn 50 (chartData st ++ points [data]).
Proof.
  intros Hlen. unfold points. cbn [flat_map]. rewrite app_nil_r.
  unfold onmessage.
  destruct (JSON_parse data) as [rsiData|e].
  - destruct (newDataPoint rsiData) as [point|e].
    + cbn [setChartData setCurrentData chartData]. apply slice_last_50.
    + cbn [console_error setCurrentData chartData].
      rewrite app_nil_r, lastn_short; [reflexivity | exact Hlen].
  - cbn [console_error chartData].
    rewrite app_nil_r, lastn_short; [reflexivity | exact Hlen].
Qed.

Lemma receive_chart events : forall st,
  length (chartData st) <= 50 ->
  chartData (receive st events) = lastn 50 (chartData st ++ points events).
Proof.
  induction events as [|data events IH]; intros st Hlen.
  - cbn. rewrite app_nil_r, lastn_short; [reflexivity | exact Hlen].
  - change (receive st (data :: events))
      with (receive (onmessage st data) events).
    rewrite IH; rewrite (onmessage_chart st data Hlen).
    + rewrite lastn_app, <- app_assoc. unfold points. cbn [flat_map].
      rewrite app_nil_r. reflexivity.
    + apply lastn_length_le.
Qed.

(** C10. After any sequence of stream events the chart buffer holds at most
    50 points: exactly the last 50 points charted (all of them while fewer
    than 50 were charted), in arrival order; each charted event appends its
    point and keeps the last 50, so on a full buffer the oldest point is
    discarded. *)
Theorem chart_buffer_keeps_last_50 (events : list string) :
  length (chartData (receive initial events)) <= 50 /\
  chartData (receive initial events) = lastn 50 (points events) /\
  (forall st data rsiData point,
     JSON_parse data = Normal rsiData ->
     newDataPoint rsiData = Normal point ->
     chartData (onmessage st data) = lastn 50 (chartData st ++ [point]) /\
     (length (chartData st) = 50 ->
      chartData (onmessage st data) = tl (chartData st) ++ [point])).
Proof.
  assert (chartData (receive initial events) = lastn 50 (points events)) as H
    by (rewrite receive_chart; [reflexivity | cbn; lia]).
  split; [rewrite H; apply lastn_length_le|]. split; [exact H|].
  intros st data rsiData point Hp Hn.
  rewrite (onmessage_charted st data rsiData point Hp Hn).
  split; [reflexivity|]. intros Hfull. apply lastn_full; [lia | exact Hfull].
Qed.

End WithRuntime.

End DashboardProps.

(* ===================================================================== *)
(** * Further properties of the relay route *)
(* ===================================================================== *)

Module StreamMore.
Import Js Stream.
Local Open Scope string_scope.
Local Open Scope list_scope.

Section WithCodec.
Context {codec : JsonCodec}.

(** X1. What the handler does with a payload that parses: it enqueues the
    frame when the filter matches; otherwise a JSON [null] is logged as a
    TypeError on [token_address] and every other value is dropped without a
    trace. *)
Theorem handler_on_parsed_payload sel st m payload j :
  value_of m = Some payload ->
  JSON_parse payload = Normal j ->
  eachMessage sel st m =
  if filter_matches sel j then enqueue st (frame j)
  else match j with
       | JNull => console_error st "Error processing message:"
                    (TypeError "token_address")
       | _ => st
       end.
Proof.
  intros Hv Hp. unfold eachMessage, try_block, filter_matches.
  rewrite Hv, Hp. cbn [bind].
  destruct (String.eqb sel "all"); cbn [negb orb bind]; [reflexivity|].
  destruct j as [| | | | |fields]; cbn [get_property bind]; try reflexivity.
  rewrite StreamProps.strict_equal_instrument.
  destruct (match instrument_of (JObj fields) with
            | Some id => String.eqb sel id
            | None => false
            end); reflexivity.
Qed.

Lemma eachMessage_accounting sel st m :
  length (queue (eachMessage sel st m)) + length (console (eachMessage sel st m))
  <= length (queue st) + length (console st)
     + (if has_payload m then 1 else 0) /\
  (sel = "all" ->
   length (queue (eachMessage sel st m)) + length (console (eachMessage sel st m))
   = length (queue st) + length (console st)
     + (if has_payload m then 1 else 0)).
Proof.
  unfold eachMessage, has_payload.
  destruct (value_of m) as [payload|]; [|split; [lia | intros _; lia]].
  unfold try_block.
  destruct (JSON_parse payload) as [j|e]; cbn [bind].
  2:{ cbn [console_error queue console]. rewrite length_app. cbn [length].
      split; [lia | intros _; lia]. }
  destruct (String.eqb sel "all") eqn:E; cbn [negb bind].
  - cbn [enqueue queue console]. rewrite length_app. cbn [length].
    split; [lia | intros _; lia].
  - split.
    2:{ intros ->. discriminate. }
    destruct (get_property j "token_address") as [tok|e]; cbn [bind].
    + destruct (negb (strict_equal_string tok sel)).
      * lia.
      * cbn [enqueue queue console]. rewrite length_app. cbn [length]. lia.
    + cbn [console_error queue console]. rewrite length_app. cbn [length]. lia.
Qed.

(** X2. Every handled message adds at most one frame or one console entry,
    and a message without a payload adds neither; with the filter "all"
    every message that has a payload adds exactly one of the two, so none is
    dropped silently. *)
Theorem frames_and_errors_account_for_messages sel st ms :
  length (queue (consumer_run sel st ms)) + length (console (consumer_run sel st ms))
  <= length (queue st) + length (console st) + length (filter has_payload ms) /\
  (sel = "all" ->
   length (queue (consumer_run sel st ms))
   + length (console (consumer_run sel st ms))
   = length (queue st) + length (console st) + length (filter has_payload ms)).
Proof.
  revert st. induction ms as [|m ms IH]; intros st.
  - cbn. split; [lia | intros _; lia].
  - rewrite StreamProps.consumer_run_cons.
    destruct (IH (eachMessage sel st m)) as [IH1 IH2].
    destruct (eachMessage_accounting sel st m) as [H1 H2].
    cbn [filter]. destruct (has_payload m); cbn [length].
    + split; [lia | intros Hs; specialize (IH2 Hs); specialize (H2 Hs); lia].
    + split; [lia | intros Hs; specialize (IH2 Hs); specialize (H2 Hs); lia].
Qed.

Lemma searchParams_get_first name pre v post :
  (forall k x, In (k, x) pre -> k <> name) ->
  searchParams_get name (pre ++ (name, v) :: post) = Some v.
Proof.
  induction pre as [|[k x] pre IH]; intros Hpre.
  - cbn. rewrite String.eqb_refl. reflexivity.
  - cbn [app searchParams_get].
    assert (k <> name) as Hk by (apply (Hpre k x); left; reflexivity).
    apply String.eqb_neq in Hk. rewrite Hk.
    apply IH. intros k' x' Hin. apply (Hpre k' x'). right. exact Hin.
Qed.

Lemma searchParams_get_absent name params :
  (forall k x, In (k, x) params -> k <> name) ->
  searchParams_get name params = None.
Proof.
  induction params as [|[k x] params IH]; intros H; [reflexivity|].
  cbn [searchParams_get].
  assert (k <> name) as Hk by (apply (H k x); left; reflexivity).
  apply String.eqb_neq in Hk. rewrite Hk.
  apply IH. intros k' x' Hin. apply (H k' x'). right. exact Hin.
Qed.

(** X3. The selected token is the value of the first [token] parameter of
    the query when that value is not empty, whatever follows it; it is "all"
    when the first one is empty or there is none; and it is never the empty
    string. *)
Theorem selectedToken_first_parameter pre v post :
  (forall k x, In (k, x) pre -> k <> "token") ->
  selectedToken (mkRequest (pre ++ ("token", v) :: post))
  = (if String.eqb v "" then "all" else v) /\
  selectedToken (mkRequest pre) = "all" /\
  (forall request, selectedToken request <> "").
Proof.
  intros Hpre. split; [|split].
  - unfold selectedToken. cbn [searchParams].
    rewrite (searchParams_get_first "token" pre v post Hpre). reflexivity.
  - unfold selectedToken. cbn [searchParams].
    rewrite (searchParams_get_absent "token" pre Hpre). reflexivity.
  - intros request. unfold selectedToken, or_else.
    destruct (searchParams_get "token" (searchParams request)) as [t|];
      [|discriminate].
    destruct (String.eqb t "") eqn:E; [discriminate|].
    apply String.eqb_neq. exact E.
Qed.

(** X4. A message is never forwarded to two sessions whose filters are two
    different instruments: at least one of them leaves its queue as it was. *)
Theorem specific_filters_are_disjoint X Y st st' m :
  X <> "all" -> Y <> "all" -> X <> Y ->
  queue (eachMessage X st m) = queue st \/
  queue (eachMessage Y st' m) = queue st'.
Proof.
  intros HX HY HXY.
  rewrite !StreamProps.eachMessage_queue.
  unfold parsed. cbn [flat_map].
  destruct (value_of m) as [payload|]; [|left; apply app_nil_r].
  destruct (JSON_parse payload) as [j|e]; [|left; apply app_nil_r].
  cbn [app filter]. unfold filter_matches.
  apply String.eqb_neq in HX, HY. rewrite HX, HY. cbn [orb].
  destruct (instrument_of j) as [id|]; [|left; apply app_nil_r].
  destruct (String.eqb X id) eqn:EX; [|left; apply app_nil_r].
  destruct (String.eqb Y id) eqn:EY; [|right; apply app_nil_r].
  apply String.eqb_eq in EX, EY. congruence.
Qed.

Lemma append_cancel_l (a b c : string) : (a ++ b = a ++ c)%string -> b = c.
Proof.
  induction a as [|ch a IH]; cbn; [auto|].
  intros [= H]. apply IH. exact H.
Qed.

Lemma append_length (a b : string) :
  String.length (a ++ b)%string = String.length a + String.length b.
Proof. induction a as [|ch a IH]; cbn; [reflexivity | rewrite IH; reflexivity]. Qed.

Lemma append_cancel_r (a b c : string) : (a ++ c = b ++ c)%string -> a = b.
Proof.
  revert b. induction a as [|ch a IH]; intros [|ch' b] H; cbn in H.
  - reflexivity.
  - apply (f_equal String.length) in H. cbn in H. rewrite append_length in H. lia.
  - apply (f_equal String.length) in H. cbn in H. rewrite append_length in H. lia.
  - injection H as -> H. f_equal. apply IH. exact H.
Qed.

(** X5. A frame determines the JSON text it carries: decoding its bytes gives
    back [data: ], the text and the blank line, and two events have the same
    frame only if they serialize to the same text. *)
Theorem frame_carries_its_text j j' :
  string_of_list_byte (frame j)
  = ("data: " ++ JSON_stringify j ++ LF ++ LF)%string /\
  (frame j = frame j' -> JSON_stringify j = JSON_stringify j').
Proof.
  split.
  - unfold frame, TextEncoder_encode. apply string_of_list_byte_of_string.
  - unfold frame, TextEncoder_encode. intros H.
    apply (f_equal string_of_list_byte) in H.
    rewrite !string_of_list_byte_of_string in H.
    apply append_cancel_l in H. apply append_cancel_r in H. exact H.
Qed.

End WithCodec.

Lemma handler_on_parsed_payload_witness :
  eachMessage (codec := Samples.codec) "TokenB" open_session
    (Samples.message JNull)
  = console_error open_session "Error processing message:"
      (TypeError "token_address").
Proof.
  apply (handler_on_parsed_payload (codec := Samples.codec) "TokenB"
           open_session (Samples.message JNull) (Samples.stringify JNull) JNull);
    reflexivity.
Defined.

Lemma selectedToken_first_parameter_witness :
  selectedToken
    (mkRequest ([("page", "2")] ++ ("token", "TokenA") :: [("token", "TokenB")]))
  = "TokenA".
Proof.
  apply (selectedToken_first_parameter [("page", "2")] "TokenA"
           [("token", "TokenB")]).
  intros k x [[= <- <-]|[]]. discriminate.
Defined.

Lemma specific_filters_are_disjoint_witness :
  queue (eachMessage (codec := Samples.codec) "TokenA" open_session
           (Samples.message Samples.eventB)) = queue open_session \/
  queue (eachMessage (codec := Samples.codec) "TokenB" open_session
           (Samples.message Samples.eventB)) = queue open_session.
Proof.
  apply (specific_filters_are_disjoint (codec := Samples.codec)
           "TokenA" "TokenB"); discriminate.
Defined.

End StreamMore.

(* ===================================================================== *)
(** * Further properties of the discovery route *)
(* ===================================================================== *)

Module TokensMore.
Import Js Tokens.
Local Open Scope string_scope.
Local Open Scope list_scope.

Lemma same_value_zero_sym a b : same_value_zero a b = same_value_zero b a.
Proof.
  destruct a, b; cbn; try reflexivity.
  - destruct b, b0; reflexivity.
  - apply String.eqb_sym.
  - apply String.eqb_sym.
Qed.

Lemma same_value_zero_eq a b : same_value_zero a b = true -> a = b.
Proof.
  destruct a, b; cbn; try discriminate; intros H.
  - reflexivity.
  - apply Bool.eqb_prop in H. congruence.
  - apply String.eqb_eq in H. congruence.
  - apply String.eqb_eq in H. congruence.
Qed.

Lemma Set_add_in set x : In x (Set_add set x).
Proof.
  unfold Set_add. destruct (existsb (same_value_zero x) set) eqn:E.
  - apply existsb_exists in E. destruct E as (a & Ha & Hs).
    apply same_value_zero_eq in Hs. subst a. exact Ha.
  - apply in_or_app. right. left. reflexivity.
Qed.

Lemma Set_add_keeps set x y : In y set -> In y (Set_add set x).
Proof.
  intros H. unfold Set_add. destruct (existsb (same_value_zero x) set); [exact H|].
  apply in_or_app. left. exact H.
Qed.

Lemma Set_add_inv set x y : In y (Set_add set x) -> In y set \/ y = x.
Proof.
  unfold Set_add. destruct (existsb (same_value_zero x) set); [auto|].
  intros H. apply in_app_or in H. destruct H as [H|[H|[]]]; auto.
Qed.

Lemma Set_add_length set x : length (Set_add set x) <= S (length set).
Proof.
  unfold Set_add. destruct (existsb (same_value_zero x) set); [lia|].
  rewrite length_app. cbn. lia.
Qed.

Lemma distinct_keys_snoc set x :
  distinct_keys set -> existsb (same_value_zero x) set = false ->
  distinct_keys (set ++ [x]).
Proof.
  unfold distinct_keys. intros Hd Hx. induction Hd as [|a l Ha Hl IH].
  - cbn. constructor; constructor.
  - cbn in Hx. apply Bool.orb_false_iff in Hx. destruct Hx as [Hxa Hxl].
    cbn [app]. constructor.
    + apply Forall_app. split; [exact Ha|].
      constructor; [|constructor].
      rewrite same_value_zero_sym. exact Hxa.
    + apply IH. exact Hxl.
Qed.

Lemma Set_add_distinct set x : distinct_keys set -> distinct_keys (Set_add set x).
Proof.
  intros Hd. unfold Set_add.
  destruct (existsb (same_value_zero x) set) eqn:E; [exact Hd|].
  apply distinct_keys_snoc; assumption.
Qed.

Lemma token_strings_in s set : In s (token_strings set) -> In (JStr s) set.
Proof.
  unfold token_strings. intros H. apply in_flat_map in H.
  destruct H as (x & Hx & Hs). destruct x; try contradiction.
  destruct Hs as [<-|[]]. exact Hx.
Qed.

Lemma distinct_keys_strings set : distinct_keys set -> NoDup (token_strings set).
Proof.
  unfold distinct_keys. induction 1 as [|a l Ha Hl IH]; [constructor|].
  unfold token_strings in *. cbn [flat_map].
  destruct a; cbn [app]; try exact IH.
  constructor; [|exact IH].
  intros Hin. apply token_strings_in in Hin.
  rewrite Forall_forall in Ha. specialize (Ha _ Hin).
  cbn in Ha. rewrite String.eqb_refl in Ha. discriminate.
Qed.

Section WithCodec.
Context {codec : JsonCodec}.

(** The three things a handler call can do. *)
Lemma eachMessage_cases st m :
  eachMessage st m = st \/
  (exists e, eachMessage st m = console_error st "Error parsing message:" e) \/
  (exists payload trade tok,
     value_of m = Some payload /\ JSON_parse payload = Normal trade /\
     get_property trade "token_address" = Normal tok /\
     eachMessage st m =
     {| tokens := match tok with
                  | Some x => if truthy tok then Set_add (tokens st) x
                              else tokens st
                  | None => tokens st
                  end;
        messageCount := S (messageCount st);
        connected := if (maxMessages <=? S (messageCount st))%nat then false
                     else connected st;
        console := console st |}).
Proof.
  unfold eachMessage.
  destruct (value_of m) as [payload|] eqn:Ev; [|left; reflexivity].
  unfold try_block.
  destruct (JSON_parse payload) as [trade|e] eqn:Ep; cbn [bind].
  2:{ right. left. exists e. reflexivity. }
  destruct (get_property trade "token_address") as [tok|e] eqn:Eg; cbn [bind].
  2:{ right. left. exists e. reflexivity. }
  right. right. exists payload, trade, tok. repeat split; reflexivity || assumption.
Qed.

Lemma eachMessage_inv st m :
  reachable_inv st -> connected st = true -> reachable_inv (eachMessage st m).
Proof.
  intros (Hc & Hle & Hlen & Hd) Hcon.
  destruct (eachMessage_cases st m)
    as [-> | [[e ->] | (payload & trade & tok & _ & _ & _ & ->)]].
  - repeat split; assumption.
  - repeat split; assumption.
  - rewrite Hcon in Hc. symmetry in Hc. apply Nat.ltb_lt in Hc.
    unfold reachable_inv. cbn [tokens messageCount connected].
    split; [|split; [|split]].
    + unfold maxMessages in *.
      destruct (100 <=? S (messageCount st))%nat eqn:E.
      * apply Nat.leb_le in E. symmetry. apply Nat.ltb_ge. exact E.
      * apply Nat.leb_gt in E. rewrite Hcon. symmetry. apply Nat.ltb_lt. exact E.
    + unfold maxMessages in *. lia.
    + destruct tok as [x|]; [|lia].
      destruct (truthy (Some x)); [|lia].
      pose proof (Set_add_length (tokens st) x). lia.
    + destruct tok as [x|]; [|exact Hd].
      destruct (truthy (Some x)); [|exact Hd].
      apply Set_add_distinct. exact Hd.
Qed.

Lemma consumer_run_inv ms : forall st,
  reachable_inv st -> reachable_inv (consumer_run st ms).
Proof.
  induction ms as [|m ms IH]; intros st H; [exact H|].
  cbn [consumer_run]. destruct (connected st) eqn:E; [|exact H].
  apply IH, eachMessage_inv; assumption.
Qed.

Lemma initial_inv : reachable_inv initial.
Proof.
  unfold reachable_inv, initial, distinct_keys. cbn.
  repeat split; try lia. constructor.
Qed.

Lemma eachMessage_calls_inv n st m :
  calls_inv n st ->
  calls_inv (n + (if has_payload m then 1 else 0)) (eachMessage st m).
Proof.
  intros (Hlen & Hn & Hoff).
  destruct (eachMessage_cases st m)
    as [-> | [[e ->] | (payload & trade & tok & Hv & _ & _ & ->)]].
  - repeat split; [exact Hlen | lia | exact Hoff].
  - repeat split; [exact Hlen | cbn [messageCount console_error]; lia | exact Hoff].
  - unfold has_payload. rewrite Hv.
    unfold calls_inv. cbn [tokens messageCount connected].
    split; [|split].
    + destruct tok as [x|]; [|lia].
      destruct (truthy (Some x)); [|lia].
      pose proof (Set_add_length (tokens st) x). lia.
    + lia.
    + intros H. apply Nat.leb_le in H. rewrite H. reflexivity.
Qed.

Lemma handler_calls_inv ms : forall n st,
  calls_inv n st ->
  calls_inv (n + length (filter has_payload ms)) (handler_calls st ms).
Proof.
  induction ms as [|m ms IH]; intros n st H.
  - cbn. rewrite Nat.add_0_r. exact H.
  - change (handler_calls st (m :: ms))
      with (handler_calls (eachMessage st m) ms).
    apply (eachMessage_calls_inv n st m) in H.
    apply IH in H. cbn [filter].
    destruct (has_payload m); cbn [length];
      [replace (n + S (length (filter has_payload ms)))
         with (n + 1 + length (filter has_payload ms)) by lia
      |replace (n + length (filter has_payload ms))
         with (n + 0 + length (filter has_payload ms)) by lia];
      exact H.
Qed.

(** X6. After any calls of the handler, starting from the empty set: the set
    holds at most as many tokens as messages were counted, at most one
    message is counted per call on a message with a payload, and once
    [maxMessages] = 100 messages are counted the handler has disconnected
    the consumer. *)
Theorem handler_calls_bookkeeping (ms : list KafkaMessage) :
  let st := handler_calls initial ms in
  length (tokens st) <= messageCount st /\
  messageCount st <= length (filter has_payload ms) /\
  (maxMessages <= messageCount st -> connected st = false).
Proof.
  cbv zeta. apply (handler_calls_inv ms 0 initial).
  unfold calls_inv, initial, maxMessages. cbn. repeat split; lia.
Qed.

(** X7. The collected set never holds the same value twice; in particular
    no token string is listed twice. *)
Theorem discovered_tokens_are_distinct (ms : list KafkaMessage) :
  distinct_keys (tokens (consumer_run initial ms)) /\
  NoDup (token_strings (tokens (consumer_run initial ms))).
Proof.
  destruct (consumer_run_inv ms initial initial_inv) as (_ & _ & _ & Hd).
  split; [exact Hd | apply distinct_keys_strings; exact Hd].
Qed.

Lemma eachMessage_tokens_from st m x :
  In x (tokens (eachMessage st m)) ->
  In x (tokens st) \/
  exists payload trade,
    value_of m = Some payload /\ JSON_parse payload = Normal trade /\
    get_property trade "token_address" = Normal (Some x) /\
    truthy (Some x) = true.
Proof.
  destruct (eachMessage_cases st m)
    as [-> | [[e ->] | (payload & trade & tok & Hv & Hp & Hg & ->)]];
    cbn [tokens console_error]; auto.
  destruct tok as [y|]; [|auto].
  destruct (truthy (Some y)) eqn:Et; [|auto].
  intros H. apply Set_add_inv in H. destruct H as [H| ->]; [auto|].
  right. exists payload, trade. auto.
Qed.

Lemma consumer_run_tokens_from ms : forall st x,
  In x (tokens (consumer_run st ms)) ->
  In x (tokens st) \/
  exists m payload trade,
    In m ms /\ value_of m = Some payload /\ JSON_parse payload = Normal trade /\
    get_property trade "token_address" = Normal (Some x) /\
    truthy (Some x) = true.
Proof.
  induction ms as [|m ms IH]; intros st x H; [auto|].
  cbn [consumer_run] in H. destruct (connected st); [|auto].
  apply IH in H. destruct H as [H|(m' & payload & trade & Hin & Hrest)].
  - apply eachMessage_tokens_from in H.
    destruct H as [H|(payload & trade & Hrest)]; [auto|].
    right. exists m, payload, trade. split; [left; reflexivity | exact Hrest].
  - right. exists m', payload, trade. split; [right; exact Hin | exact Hrest].
Qed.

(** X8. Every token the route collects is the [token_address] of one of the
    messages it was given, read from a payload that parsed, and is truthy. *)
Theorem discovered_tokens_come_from_messages (ms : list KafkaMessage) (x : json) :
  In x (tokens (consumer_run initial ms)) ->
  exists m payload trade,
    In m ms /\ value_of m = Some payload /\ JSON_parse payload = Normal trade /\
    get_property trade "token_address" = Normal (Some x) /\
    truthy (Some x) = true.
Proof.
  intros H. apply consumer_run_tokens_from in H.
  destruct H as [[]|H]. exact H.
Qed.

Lemma eachMessage_tokens_keep st m x :
  In x (tokens st) -> In x (tokens (eachMessage st m)).
Proof.
  intros H.
  destruct (eachMessage_cases st m)
    as [-> | [[e ->] | (payload & trade & tok & _ & _ & _ & ->)]];
    cbn [tokens console_error]; try exact H.
  destruct tok as [y|]; [|exact H].
  destruct (truthy (Some y)); [|exact H].
  apply Set_add_keeps. exact H.
Qed.

Lemma consumer_run_tokens_keep ms : forall st x,
  In x (tokens st) -> In x (tokens (consumer_run st ms)).
Proof.
  induction ms as [|m ms IH]; intros st x H; [exact H|].
  cbn [consumer_run]. destruct (connected st); [|exact H].
  apply IH, eachMessage_tokens_keep. exact H.
Qed.

Lemma handler_calls_tokens_keep ms : forall st x,
  In x (tokens st) -> In x (tokens (handler_calls st ms)).
Proof.
  induction ms as [|m ms IH]; intros st x H; [exact H|].
  change (handler_calls st (m :: ms))
    with (handler_calls (eachMessage st m) ms).
  apply IH, eachMessage_tokens_keep. exact H.
Qed.

(** X9. Whenever the set is read, it holds the truthy [token_address] of
    every message the handler has been called on so far whose payload
    parsed: no later call removes a token. *)
Theorem handled_truthy_token_is_collected st ms m payload trade x :
  In m ms -> value_of m = Some payload -> JSON_parse payload = Normal trade ->
  get_property trade "token_address" = Normal (Some x) ->
  truthy (Some x) = true ->
  In x (tokens (handler_calls st ms)).
Proof.
  intros Hin Hv Hp Hg Ht. revert st.
  induction ms as [|m0 ms IH]; intros st; [destruct Hin|].
  change (handler_calls st (m0 :: ms))
    with (handler_calls (eachMessage st m0) ms).
  destruct Hin as [-> | Hin]; [|apply IH; exact Hin].
  apply handler_calls_tokens_keep.
  unfold eachMessage, try_block. rewrite Hv, Hp. cbn [bind]. rewrite Hg.
  cbn [bind tokens]. rewrite Ht. apply Set_add_in.
Qed.

End WithCodec.

Lemma discovered_tokens_come_from_messages_witness :
  exists m payload trade,
    In m Samples.sample_log /\ value_of m = Some payload /\
    JSON_parse (JsonCodec := Samples.codec) payload = Normal trade /\
    get_property trade "token_address" = Normal (Some (JStr "TokenB")) /\
    truthy (Some (JStr "TokenB")) = true.
Proof.
  apply (discovered_tokens_come_from_messages (codec := Samples.codec)
           Samples.sample_log (JStr "TokenB")).
  vm_compute. right. left. reflexivity.
Defined.

Lemma handled_truthy_token_is_collected_witness :
  In (JStr "TokenB")
     (tokens (handler_calls (codec := Samples.codec) initial Samples.sample_log)).
Proof.
  apply (handled_truthy_token_is_collected (codec := Samples.codec) initial
           Samples.sample_log
           (Samples.message Samples.eventB) (Samples.stringify Samples.eventB)
           Samples.eventB (JStr "TokenB")).
  - right. right. left. reflexivity.
  - reflexivity.
  - reflexivity.
  - reflexivity.
  - reflexivity.
Defined.

End TokensMore.

(* ===================================================================== *)
(** * Further properties of the dashboard page *)
(* ===================================================================== *)

Module DashboardMore.
Import Js Dashboard.
Local Open Scope string_scope.
Local Open Scope list_scope.

Lemma dashboard_with_console_same st : with_console st (console st) = st.
Proof. destruct st; reflexivity. Qed.

Section WithRuntime.
Context {codec : JsonCodec} {clock : Clock}.

Lemma onmessage_console st data :
  exists errs, forall c,
    onmessage (with_console st c) data
    = with_console (onmessage st data) (c ++ errs).
Proof.
  unfold onmessage.
  destruct (JSON_parse data) as [rsiData|e].
  - destruct (newDataPoint rsiData) as [point|e].
    + exists []. intros c. rewrite app_nil_r. reflexivity.
    + eexists. intros c. reflexivity.
  - eexists. intros c. reflexivity.
Qed.

Lemma receive_cons st data events :
  receive st (data :: events) = receive (onmessage st data) events.
Proof. reflexivity. Qed.

Lemma receive_app st a b : receive st (a ++ b) = receive (receive st a) b.
Proof. unfold receive. apply fold_left_app. Qed.

Lemma receive_console events : forall st,
  exists errs, forall c,
    receive (with_console st c) events
    = with_console (receive st events) (c ++ errs).
Proof.
  induction events as [|data events IH]; intros st.
  - exists []. intros c. rewrite app_nil_r. reflexivity.
  - destruct (onmessage_console st data) as [e1 H1].
    destruct (IH (onmessage st data)) as [e2 H2].
    exists (e1 ++ e2). intros c.
    rewrite !receive_cons, H1, H2, app_assoc. reflexivity.
Qed.

(** X10. An event whose data does not parse only adds one console entry: the
    current values and the chart are what they would be had the event never
    arrived, and the events after it are handled as usual. *)
Theorem unparsable_event_is_skipped data e st pre post :
  JSON_parse data = Throw e ->
  onmessage st data = console_error st "Error parsing SSE data:" e /\
  exists errs,
    currentData (receive st (pre ++ data :: post))
    = currentData (receive st (pre ++ post)) /\
    chartData (receive st (pre ++ data :: post))
    = chartData (receive st (pre ++ post)) /\
    console (receive st (pre ++ post)) = console (receive st pre) ++ errs /\
    console (receive st (pre ++ data :: post))
    = console (receive st pre) ++ mkLog "Error parsing SSE data:" e :: errs.
Proof.
  intros Hp.
  assert (forall s, onmessage s data = console_error s "Error parsing SSE data:" e)
    as Hstep by (intros s; unfold onmessage; rewrite Hp; reflexivity).
  split; [apply Hstep|].
  rewrite !receive_app, receive_cons, Hstep.
  set (s1 := receive st pre).
  destruct (receive_console post s1) as [errs H].
  exists errs.
  pose proof (H (console s1)) as H0. rewrite dashboard_with_console_same in H0.
  pose proof (H (console s1 ++ [mkLog "Error parsing SSE data:" e])) as H1.
  change (with_console s1 (console s1 ++ [mkLog "Error parsing SSE data:" e]))
    with (console_error s1 "Error parsing SSE data:" e) in H1.
  rewrite H1. cbn [currentData chartData console with_console].
  repeat split.
  - rewrite H0 at 1. reflexivity.
  - rewrite <- app_assoc. reflexivity.
Qed.

Lemma last_cons {A} (a : A) l d : last (a :: l) d = last l a.
Proof.
  revert a d. induction l as [|b l IH]; intros a d; [reflexivity|].
  change (last (a :: b :: l) d) with (last (b :: l) d).
  rewrite !IH. reflexivity.
Qed.

(** X11. The current values shown are those of the last event whose data
    parsed, whether or not that event could be charted; they are the initial
    ones when no event parsed. *)
Theorem currentData_is_last_parsed events : forall st,
  currentData (receive st events) = last (parsed_data events) (currentData st).
Proof.
  induction events as [|data events IH]; intros st; [reflexivity|].
  rewrite receive_cons, IH. unfold parsed_data. cbn [flat_map].
  unfold onmessage.
  destruct (JSON_parse data) as [rsiData|e].
  - cbn [app]. rewrite last_cons.
    destruct (newDataPoint rsiData); reflexivity.
  - reflexivity.
Qed.

(** X12. What the handler does with data that parses.  A [null] replaces
    the current values and is logged as a TypeError on [timestamp], the
    chart left alone.  Any other value replaces the current values, its
    missing fields read as undefined; it is charted when formatting its
    timestamp returns normally, and when that throws the error is logged and
    the chart left alone. *)
Theorem parsed_event_outcome st data rsiData :
  JSON_parse data = Normal rsiData ->
  (rsiData = JNull ->
   onmessage st data
   = console_error (setCurrentData st JNull) "Error parsing SSE data:"
       (TypeError "timestamp")) /\
  (rsiData <> JNull ->
   exists ts p r,
     get_property rsiData "timestamp" = Normal ts /\
     get_property rsiData "current_price" = Normal p /\
     get_property rsiData "rsi_value" = Normal r /\
     onmessage st data
     = match toLocaleTimeString ts with
       | Normal t =>
           {| currentData := rsiData;
              chartData := lastn 50 (chartData st ++
                             [{| time := t; price := p; rsi := r |}]);
              console := console st |}
       | Throw e =>
           console_error (setCurrentData st rsiData)
             "Error parsing SSE data:" e
       end).
Proof.
  intros Hp. split.
  - intros ->. unfold onmessage. rewrite Hp. reflexivity.
  - intros Hnn. unfold onmessage. rewrite Hp. unfold newDataPoint.
    destruct rsiData as [| | | | |fields]; try contradiction;
      cbn [get_property bind];
      do 3 eexists; repeat (split; [reflexivity|]);
      (destruct (toLocaleTimeString _) as [t|e]; cbn [bind]; [|reflexivity]);
      unfold setChartData, setCurrentData; cbn [currentData chartData console];
      rewrite DashboardProps.slice_last_50; reflexivity.
Qed.

End WithRuntime.

Lemma substring_length n m s :
  String.length (String.substring n m s) = Nat.min m (String.length s - n).
Proof.
  revert n m. induction s as [|c s IH]; intros n m.
  - destruct n, m; reflexivity.
  - destruct n as [|n].
    + destruct m as [|m]; [reflexivity|]. cbn. rewrite IH.
      rewrite Nat.sub_0_r. reflexivity.
    + cbn. apply IH.
Qed.

Lemma substring_whole m s :
  String.length s <= m -> String.substring 0 m s = s.
Proof.
  revert m. induction s as [|c s IH]; intros m H.
  - destruct m; reflexivity.
  - destruct m as [|m]; cbn in H; [lia|].
    cbn. rewrite IH; [reflexivity | lia].
Qed.

(** X13. The label of a token in the selector has
    [min 8 n + 3 + min 6 n] characters for a token of [n] characters, so 17
    from 8 characters on; a token of at most 6 characters is shown whole on
    both sides of the ellipsis. *)
Theorem option_label_shape (token : string) :
  let n := String.length token in
  String.length (option_label token) = Nat.min 8 n + 3 + Nat.min 6 n /\
  (n <= 6 -> option_label token = (token ++ "..." ++ token)%string).
Proof.
  cbv zeta. unfold option_label, substring.
  set (n := String.length token).
  split.
  - rewrite !StreamMore.append_length, !substring_length. fold n.
    cbn [String.length]. clearbody n.
    change (Z.max 0 0) with 0%Z. change (Z.max 8 0) with 8%Z.
    rewrite (Z.min_l 0 (Z.of_nat n)) by lia.
    rewrite (Z.min_l 0 (Z.min 8 (Z.of_nat n))) by lia.
    rewrite (Z.max_r 0 (Z.min 8 (Z.of_nat n))) by lia.
    rewrite (Z.min_l (Z.max (Z.of_nat n - 6) 0) (Z.of_nat n)) by lia.
    rewrite (Z.max_r (Z.max (Z.of_nat n - 6) 0) (Z.of_nat n)) by lia.
    lia.
  - intros Hn.
    assert (n = String.length token) as Hlen by reflexivity.
    clearbody n.
    change (Z.max 0 0) with 0%Z. change (Z.max 8 0) with 8%Z.
    rewrite (Z.min_l 0 (Z.of_nat n)) by lia.
    rewrite (Z.min_l 0 (Z.min 8 (Z.of_nat n))) by lia.
    rewrite (Z.max_r 0 (Z.min 8 (Z.of_nat n))) by lia.
    rewrite (Z.max_r (Z.of_nat n - 6) 0) by lia.
    rewrite !(Z.min_l 0 (Z.of_nat n)) by lia.
    rewrite (Z.max_r 0 (Z.of_nat n)) by lia.
    cbn [Z.to_nat].
    rewrite !substring_whole by lia. reflexivity.
Qed.

Lemma unparsable_event_is_skipped_witness :
  onmessage (codec := Samples.codec) (clock := Samples.clock) initial
    Samples.malformed
  = console_error initial "Error parsing SSE data:"
      (SyntaxError Samples.malformed).
Proof.
  apply (unparsable_event_is_skipped (codec := Samples.codec)
           (clock := Samples.clock) Samples.malformed
           (SyntaxError Samples.malformed) initial [] []).
  reflexivity.
Defined.

Lemma parsed_event_outcome_witness :
  onmessage (codec := Samples.codec) (clock := Samples.clock) initial
    (Samples.stringify JNull)
  = console_error (setCurrentData initial JNull) "Error parsing SSE data:"
      (TypeError "timestamp").
Proof.
  apply (parsed_event_outcome (codec := Samples.codec)
           (clock := Samples.clock) initial (Samples.stringify JNull) JNull);
    reflexivity.
Defined.

End DashboardMore.
